(** * ddgs: search, de-duplicate, fetch, extract, format

    A shallow embedding of [main.py]: the text cleaner [clean_text], the
    per-URL worker [fetch_and_parse_article], the retrying pipeline
    [get_material] and the [/search] endpoint, together with the properties
    the design document states about them.

    Python values are modelled as follows.
    - [str] is a list of Unicode code points ([list N]); [ord] is the
      identity on code points.
    - a [dict] with string values is a [gmap string pystr]; [d.get(k)] and
      [k in d] are lookups.
    - [set] is a [gset].
    - exceptions are the instances of Python's [Exception] class, tagged
      with the part of the class hierarchy that the handlers of [main.py]
      distinguish, and carrying the message [str(e)].
    - [float] is a binary64 number ([PrimFloat.float]); an [int] is a [Z].
    - the outside world (search provider, random source, web servers, article
      extraction, completion order of concurrent fetches) is a record of
      oracles; the effects of the code are a log of events. *)

From stdpp Require Import gmap strings list sorting.
From Stdlib Require Import DecimalString.
From Stdlib Require Import PrimFloat SpecFloat FloatOps.

Open Scope N_scope.

(** ** Python strings *)

Abbreviation pychar := N.
Abbreviation pystr := (list N).

Definition ord (c : pychar) : N := c.

(** A literal of the source, as code points. *)
Definition py (s : string) : pystr :=
  Ascii.N_of_ascii <$> String.list_ascii_of_string s.

(** [str.isspace] on one character: CPython's [Py_UNICODE_ISSPACE]. *)
Definition isspace (c : pychar) : bool :=
  ((9 <=? c) && (c <=? 13)) || ((28 <=? c) && (c <=? 32))
  || (c =? 133) || (c =? 160) || (c =? 5760)
  || ((8192 <=? c) && (c <=? 8202))
  || (c =? 8232) || (c =? 8233) || (c =? 8239) || (c =? 8287)
  || (c =? 12288).

Definition space : pychar := 32.

Fixpoint lstrip (s : pystr) : pystr :=
  match s with
  | [] => []
  | c :: s' => if isspace c then lstrip s' else s
  end.

Definition rstrip (s : pystr) : pystr := reverse (lstrip (reverse s)).

(** [s.strip()] with no argument. *)
Definition strip (s : pystr) : pystr := rstrip (lstrip s).

(** [sep.join(parts)]. *)
Fixpoint join (sep : pystr) (parts : list pystr) : pystr :=
  match parts with
  | [] => []
  | [p] => p
  | p :: ps => p ++ sep ++ join sep ps
  end.

(** [str(n)] for an [int]. *)
Definition str_of_int (n : Z) : pystr :=
  py (NilZero.string_of_int (Z.to_int n)).

(** ** [clean_text] *)

(** [char if ord(char) < 128 else ' '] *)
Definition ascii_or_space (char : pychar) : pychar :=
  if ord char <? 128 then char else space.

(** The argument is [None] for Python's [None]. *)
Definition clean_text (text : option pystr) : pystr :=
  match text with
  | None => []
  | Some [] => []
  | Some s => strip (ascii_or_space <$> s)
  end.

(** [Some c] is not a whitespace character; [None] (no character) passes. *)
Definition not_space (oc : option pychar) : Prop :=
  match oc with
  | Some c => isspace c = false
  | None => True
  end.

Definition is_ascii (c : pychar) : Prop := ord c < 128.

(** ** Exceptions, dictionaries and effects *)

(** The classes that the handlers of [main.py] tell apart.
    [RatelimitException] is a subclass of [DuckDuckGoSearchException];
    [OtherException] stands for every other subclass of [Exception]
    ([aiohttp.ClientError], [asyncio.TimeoutError], [ValueError],
    [KeyError], [newspaper.ArticleException], ...). *)
Inductive exn_class : Type :=
  | RatelimitException
  | DuckDuckGoSearchException
  | OtherException.

Record exn : Type := Exn { exn_cls : exn_class; exn_msg : pystr }.

(** [str(e)] *)
Definition str_of_exn (e : exn) : pystr := exn_msg e.

(** [isinstance(e, (RatelimitException, DuckDuckGoSearchException))] *)
Definition is_provider_error (e : exn) : bool :=
  match exn_cls e with
  | RatelimitException | DuckDuckGoSearchException => true
  | OtherException => false
  end.

Inductive outcome (A : Type) : Type :=
  | Return (a : A)
  | Raise (e : exn).
Arguments Return {A} a.
Arguments Raise {A} e.

Abbreviation dict := (gmap string pystr).

(** What [await response.text()] gives once the status line was read. *)
Record response : Type := Response { resp_status : Z; resp_text : outcome pystr }.

(** What [article.parse()] leaves in the [Article] object. *)
Record article : Type := Article { art_title : pystr; art_text : pystr }.

(** The environment of one request.  The provider and the random source are
    asked in sequence, so their answers are indexed by the number of earlier
    calls; the other oracles are functions of their arguments. *)
Record world : Type := World {
  (** [ddgs.atext(keyword, max_results=n)], at its k-th call *)
  ddgs_atext : nat → pystr → Z → outcome (list dict);
  (** [random.uniform(0, 1)], at its k-th draw *)
  random_uniform : nat → float;
  (** [urlparse(url).netloc] *)
  urlparse_netloc : pystr → outcome pystr;
  (** [Article(url)] *)
  Article_init : pystr → outcome unit;
  (** [session.get(url, timeout=10)] *)
  session_get : pystr → outcome response;
  (** [article.set_html(html); article.parse()] for the article of [url] *)
  article_parse : pystr → pystr → outcome article;
  (** time at which the fetch of the i-th url completes *)
  latency : nat → pystr → nat
}.

Inductive event : Type :=
  | EvSearch (keyword : pystr) (max_results : Z)
  | EvSleep (delay : float)
  | EvGet (url : pystr)
  | EvParse (url html : pystr).

Record state : Type := State {
  calls : nat;          (** provider calls made so far *)
  draws : nat;          (** random numbers drawn so far *)
  log : list event      (** what the request did, oldest first *)
}.

Definition M (A : Type) : Type := state → outcome A * state.

#[global] Instance M_ret : MRet M := λ A a s, (Return a, s).
#[global] Instance M_bind : MBind M := λ A B f m s,
  match m s with
  | (Return a, s') => f a s'
  | (Raise e, s') => (Raise e, s')
  end.
#[global] Instance M_fmap : FMap M := λ A B f m s,
  match m s with
  | (Return a, s') => (Return (f a), s')
  | (Raise e, s') => (Raise e, s')
  end.

Definition raise {A} (e : exn) : M A := λ s, (Raise e, s).

(** A pure computation that may raise. *)
Definition lift {A} (o : outcome A) : M A := λ s, (o, s).

(** [try: body except Exception as e: handler(e)] *)
Definition try_except {A} (body : M A) (handler : exn → M A) : M A := λ s,
  match body s with
  | (Return a, s') => (Return a, s')
  | (Raise e, s') => handler e s'
  end.

Definition emit (ev : event) : M unit := λ s,
  (Return (), State (calls s) (draws s) (log s ++ [ev])).

Definition atext (w : world) (keyword : pystr) (max_results : Z) : M (list dict) := λ s,
  (ddgs_atext w (calls s) keyword max_results,
   State (S (calls s)) (draws s) (log s ++ [EvSearch keyword max_results])).

Definition uniform01 (w : world) : M float := λ s,
  (Return (random_uniform w (draws s)), State (calls s) (S (draws s)) (log s)).

Definition sleep (delay : float) : M unit := emit (EvSleep delay).

Definition get (w : world) (url : pystr) : M response :=
  emit (EvGet url);; lift (session_get w url).

Definition parse (w : world) (url html : pystr) : M article :=
  emit (EvParse url html);; lift (article_parse w url html).

(** ** [fetch_and_parse_article] *)

Definition error_dict (url msg : pystr) : dict :=
  {[ "url" := url; "error" := msg ]}.

Definition article_dict (title text : pystr) : dict :=
  {[ "title" := title; "text" := text ]}.

Definition fetch_and_parse_article (w : world) (url : pystr) : M dict :=
  try_except
    (_ ← lift (Article_init w url);
     response ← get w url;
     if bool_decide (resp_status response ≠ 200%Z) then
       mret (error_dict url (py "HTTP " ++ str_of_int (resp_status response)))
     else
       html ← lift (resp_text response);
       a ← parse w url html;
       mret (article_dict (clean_text (Some (art_title a)))
                          (clean_text (Some (take (N.to_nat 10000) (art_text a))))))
    (λ e, mret (error_dict url (str_of_exn e))).

(** ** De-duplication by host *)

(** The loop over [results] of [get_material], with its two variables. *)
Fixpoint dedupe_loop (w : world) (results : list dict)
    (urls : list pystr) (seen_domains : gset pystr) : outcome (list pystr) :=
  match results with
  | [] => Return urls
  | result :: rest =>
      match result !! "href" with
      | None | Some [] => dedupe_loop w rest urls seen_domains
      | Some url =>
          match urlparse_netloc w url with
          | Raise e => Raise e
          | Return domain =>
              if decide (domain ∈ seen_domains)
              then dedupe_loop w rest urls seen_domains
              else dedupe_loop w rest (urls ++ [url]) (seen_domains ∪ {[domain]})
          end
      end
  end.

Definition dedupe (w : world) (results : list dict) : outcome (list pystr) :=
  dedupe_loop w results [] ∅.

(** ** Fan-out: [asyncio.gather] over the tasks, with [return_exceptions=True] *)

(** An element of the list that [gather] returns. *)
Inductive gathered : Type :=
  | GDict (d : dict)
  | GExc (e : exn).

Definition completes_before (w : world) (a b : nat * pystr) : Prop :=
  (latency w a.1 a.2 ≤ latency w b.1 b.2)%nat.

#[global] Instance completes_before_dec w a b : Decision (completes_before w a b) :=
  decide (latency w a.1 a.2 ≤ latency w b.1 b.2)%nat.

(** The tasks, one per url and numbered by position, in the order in which
    they complete. *)
Definition completion_order (w : world) (urls : list pystr) : list (nat * pystr) :=
  merge_sort (completes_before w) (imap (λ i url, (i, url)) urls).

(** A task completes: its result, or the exception it raised, is stored in
    the slot of its position. *)
Definition complete_task (w : world) (slots : list (option gathered))
    (task : nat * pystr) : M (list (option gathered)) := λ s,
  match fetch_and_parse_article w task.2 s with
  | (Return d, s') => (Return (<[task.1 := Some (GDict d)]> slots), s')
  | (Raise e, s') => (Return (<[task.1 := Some (GExc e)]> slots), s')
  end.

Fixpoint complete_tasks (w : world) (tasks : list (nat * pystr))
    (slots : list (option gathered)) : M (list (option gathered)) :=
  match tasks with
  | [] => mret slots
  | task :: rest =>
      slots' ← complete_task w slots task;
      complete_tasks w rest slots'
  end.

Definition gather (w : world) (urls : list pystr) : M (list gathered) :=
  slots ← complete_tasks w (completion_order w urls) (replicate (length urls) None);
  mret (omap id slots).

(** ** Formatting *)

Definition newline : pystr := [10].

Definition KeyError (key : string) : exn :=
  Exn OtherException (py "'" ++ py key ++ py "'").

(** [d[key]] *)
Definition getitem (d : dict) (key : string) : outcome pystr :=
  match d !! key with
  | Some v => Return v
  | None => Raise (KeyError key)
  end.

Definition block (title text : pystr) : list pystr :=
  [py "Title: " ++ title; py "Text: " ++ text; replicate 5 45].

Fixpoint format_loop (articles : list gathered)
    (formatted_results : list pystr) : outcome (list pystr) :=
  match articles with
  | [] => Return formatted_results
  | GExc _ :: rest => format_loop rest formatted_results
  | GDict a :: rest =>
      match a !! "error" with
      | Some _ => format_loop rest formatted_results
      | None =>
          match getitem a "title" with
          | Raise e => Raise e
          | Return title =>
              match getitem a "text" with
              | Raise e => Raise e
              | Return text =>
                  format_loop rest (formatted_results ++ block title text)
              end
          end
      end
  end.

(** ** [get_material] *)

(** The body of [async with aiohttp.ClientSession(...) as session]. *)
Definition fetch_and_format (w : world) (urls : list pystr) : M pystr :=
  articles ← gather w urls;
  formatted_results ← lift (format_loop articles []);
  mret (join newline formatted_results).

(** The body of the [try] of one attempt. *)
Definition attempt_body (w : world) (keyword : pystr) : M pystr :=
  results ← atext w keyword 15;
  if bool_decide (results = []) then mret []
  else
    urls ← lift (dedupe w results);
    fetch_and_format w urls.

(** The binary64 number nearest to an integer (ties to even); [infinity]
    when the integer is out of range. *)
Definition float_of_Z (n : Z) : float :=
  SF2Prim (binary_normalize prec emax n 0 false).

Definition OverflowError : exn :=
  Exn OtherException (py "int too large to convert to float").

(** The conversion that [int + float] applies to the [int]. *)
Definition float_of_int (n : Z) : outcome float :=
  if is_infinity (float_of_Z n) then Raise OverflowError
  else Return (float_of_Z n).

(** [initial_delay * (2 ** attempt) + random.uniform(0, 1)], given the draw:
    the product is an [int], the sum is made in binary64. *)
Definition backoff_delay (initial_delay : Z) (attempt : nat) (jitter : float)
    : outcome float :=
  match float_of_int (initial_delay * 2 ^ Z.of_nat attempt) with
  | Return product => Return (product + jitter)%float
  | Raise e => Raise e
  end.

(** [for attempt in attempts: ...]; the result [None] is Python's [None],
    returned when the loop ends without a [return]. *)
Fixpoint retry_loop (w : world) (keyword : pystr) (max_retries : Z)
    (initial_delay : Z) (attempts : list nat) : M (option pystr) :=
  match attempts with
  | [] => mret None
  | attempt :: rest =>
      returned ← try_except
        (Some <$> attempt_body w keyword)
        (λ e,
           if is_provider_error e then
             if bool_decide (Z.of_nat attempt = max_retries - 1)%Z
             then raise e
             else
               jitter ← uniform01 w;
               delay ← lift (backoff_delay initial_delay attempt jitter);
               sleep delay;;
               mret None
           else raise e);
      match returned with
      | Some digest => mret (Some digest)
      | None => retry_loop w keyword max_retries initial_delay rest
      end
  end.

Definition get_material (w : world) (keyword : pystr)
    (max_retries : Z) (initial_delay : Z) : M (option pystr) :=
  retry_loop w keyword max_retries initial_delay (seq 0 (Z.to_nat max_retries)).

(** ** The [/search] endpoint *)

Inductive json : Type :=
  | JNull
  | JStr (s : pystr).

Record http_response : Type :=
  HttpResponse { status_code : Z; body : gmap string json }.

Definition json_of (v : option pystr) : json :=
  match v with
  | Some s => JStr s
  | None => JNull
  end.

(** [get_material(request.keyword)] with the default arguments. *)
Definition search (w : world) (keyword : pystr) (s : state) : http_response * state :=
  match get_material w keyword 5 1 s with
  | (Return results, s') =>
      (HttpResponse 200 {[ "results" := json_of results ]}, s')
  | (Raise e, s') =>
      (HttpResponse 500 {[ "detail" := JStr (str_of_exn e) ]}, s')
  end.

(** ** Vocabulary of the properties *)

(** The state after the worker of [url] logged its request. *)
Definition after_get (url : pystr) (s : state) : state :=
  State (calls s) (draws s) (log s ++ [EvGet url]).

(** The state after the worker of [url] also logged the extraction. *)
Definition after_parse (url html : pystr) (s : state) : state :=
  State (calls s) (draws s) ((log s ++ [EvGet url]) ++ [EvParse url html]).

(** An exception [e] is raised while the worker of [url] builds the article
    object, fetches, reads the body or extracts. *)
Inductive worker_exception (w : world) (url : pystr) (e : exn) : Prop :=
  | exception_in_init :
      Article_init w url = Raise e → worker_exception w url e
  | exception_in_get :
      Article_init w url = Return () →
      session_get w url = Raise e → worker_exception w url e
  | exception_in_text r :
      Article_init w url = Return () →
      session_get w url = Return r →
      resp_status r = 200%Z →
      resp_text r = Raise e → worker_exception w url e
  | exception_in_parse r html :
      Article_init w url = Return () →
      session_get w url = Return r →
      resp_status r = 200%Z →
      resp_text r = Return html →
      article_parse w url html = Raise e → worker_exception w url e.

(** The fetch of [url] answers with a status other than 200. *)
Definition worker_bad_status (w : world) (url : pystr) (status : Z) : Prop :=
  ∃ r, Article_init w url = Return ()
       ∧ session_get w url = Return r
       ∧ resp_status r = status ∧ status ≠ 200%Z.

(** The fetch of [url] answers 200 with [html], from which [a] is extracted. *)
Definition worker_extracts (w : world) (url html : pystr) (a : article) : Prop :=
  ∃ r, Article_init w url = Return ()
       ∧ session_get w url = Return r
       ∧ resp_status r = 200%Z
       ∧ resp_text r = Return html
       ∧ article_parse w url html = Return a.



(** ** Sample environments, for the examples *)

Definition is_alpha (c : pychar) : bool :=
  ((65 <=? c) && (c <=? 90)) || ((97 <=? c) && (c <=? 122)).

Definition is_scheme_char (c : pychar) : bool :=
  is_alpha c || ((48 <=? c) && (c <=? 57)) || (c =? 43) || (c =? 45) || (c =? 46).

(** What follows the first colon, when only scheme characters precede it. *)
Fixpoint after_scheme (url : pystr) : option pystr :=
  match url with
  | [] => None
  | c :: rest =>
      if c =? 58 then Some rest
      else if is_scheme_char c then after_scheme rest
      else None
  end.

(** Up to the first of "/", "?" and "#". *)
Fixpoint until_delimiter (s : pystr) : pystr :=
  match s with
  | [] => []
  | c :: rest =>
      if (c =? 47) || (c =? 63) || (c =? 35) then []
      else c :: until_delimiter rest
  end.

(** The host part of a URL as [urlsplit] finds it: after the scheme and the
    two slashes, up to the first delimiter; a bracket without its partner
    is refused. *)
Definition sample_netloc (url : pystr) : outcome pystr :=
  let rest :=
    match url with
    | c :: _ => if is_alpha c then default url (after_scheme url) else url
    | [] => url
    end in
  match rest with
  | 47 :: 47 :: r =>
      let netloc := until_delimiter r in
      if xorb (bool_decide (91 ∈ netloc)) (bool_decide (93 ∈ netloc))
      then Raise (Exn OtherException (py "Invalid IPv6 URL"))
      else Return netloc
  | _ => Return []
  end.

Definition sample_results : list dict :=
  [ {[ "title" := py "A one"; "href" := py "https://a.example/one" ]};
    {[ "title" := py "A two"; "href" := py "https://a.example/two" ]};
    {[ "title" := py "no link" ]};
    {[ "href" := py "https://b.example/" ]};
    {[ "href" := [] ]};
    {[ "href" := py "http://a.example/three" ]};
    {[ "href" := py "https://c.example/page?x=1" ]};
    {[ "href" := py "https://d.example" ]} ].

Definition sample_get (url : pystr) : outcome response :=
  if decide (url = py "https://a.example/one") then
    Return (Response 200 (Return (py "<html>A</html>")))
  else if decide (url = py "https://b.example/") then
    Return (Response 500 (Return (py "<html>oops</html>")))
  else if decide (url = py "https://c.example/page?x=1") then
    Raise (Exn OtherException (py "timed out"))
  else if decide (url = py "https://d.example") then
    Return (Response 200 (Return (py "<html>D</html>")))
  else Return (Response 404 (Return [])).

(** The title has an accented letter and blanks around it, the text ends in
    an em-dash and a blank. *)
Definition sample_parse (url html : pystr) : outcome article :=
  Return (Article (py " Caf" ++ [233] ++ py " 1 ") (html ++ [8212; 32])).

(** The provider answers at once; the fetches complete in reverse order. *)
Definition sample_world : world :=
  World (λ _ _ _, Return sample_results) (λ _, 0.5%float) sample_netloc
        (λ _, Return ()) sample_get sample_parse (λ i _, 10 - i)%nat.

(** The provider refuses every call; the k-th refusal says so. *)
Definition ratelimited_world : world :=
  World (λ k _ _, Raise (Exn RatelimitException
                           (py "ratelimit " ++ str_of_int (Z.of_nat k))))
        (λ _, 0.5%float) sample_netloc
        (λ _, Return ()) sample_get sample_parse (λ i _, i).

(** The provider finds nothing. *)
Definition empty_world : world :=
  World (λ _ _ _, Return []) (λ _, 0%float) sample_netloc
        (λ _, Return ()) sample_get sample_parse (λ i _, i).

(** The provider refuses twice, then fails with an error of another kind. *)
Definition broken_world : world :=
  World (λ k _ _, if (k <? 2)%nat
                  then Raise (Exn DuckDuckGoSearchException (py "try again"))
                  else Raise (Exn OtherException (py "connection reset")))
        (λ _, 0.25%float) sample_netloc
        (λ _, Return ()) sample_get sample_parse (λ i _, i).

(** The provider finds one result, whose url [urlparse] refuses. *)
Definition bad_url_world : world :=
  World (λ _ _ _, Return [ {[ "href" := py "http://[::1/index" ]} ])
        (λ _, 0%float) sample_netloc
        (λ _, Return ()) sample_get sample_parse (λ i _, i).

Definition initial_state : state := State 0 0 [].

(** [result.get('href')] when it is a non-empty string: the url of an entry
    that the loop does not skip. *)
Definition url_of (result : dict) : option pystr :=
  match result !! "href" with
  | None | Some [] => None
  | Some url => Some url
  end.

(** The urls of the entries that have one, in the order of the results. *)
Definition candidates (results : list dict) : list pystr := omap url_of results.

(** A search result that carries [url] and nothing else. *)
Definition as_result (url : pystr) : dict := {[ "href" := url ]}.

(** [kept w seen cands new]: going through [cands] with the hosts [seen]
    already taken, exactly the urls [new] are taken, each the first of a
    host not taken before. *)
Inductive kept (w : world) : gset pystr → list pystr → list pystr → Prop :=
  | kept_nil seen : kept w seen [] []
  | kept_skip seen url domain cands new :
      urlparse_netloc w url = Return domain →
      domain ∈ seen →
      kept w seen cands new →
      kept w seen (url :: cands) new
  | kept_take seen url domain cands new :
      urlparse_netloc w url = Return domain →
      domain ∉ seen →
      kept w (seen ∪ {[domain]}) cands new →
      kept w seen (url :: cands) (url :: new).

(** The worker of [url] returns [d], whatever the state it starts from. *)
Definition worker_returns (w : world) (url : pystr) (d : dict) : Prop :=
  ∀ s, (fetch_and_parse_article w url s).1 = Return d.

(** The dictionary that the worker of [url] returns. *)
Definition worker_value (w : world) (url : pystr) : dict :=
  match (fetch_and_parse_article w url (State 0 0 [])).1 with
  | Return d => d
  | Raise _ => ∅
  end.

(** The same environment with other completion times. *)
Definition with_latency (w : world) (lat : nat → pystr → nat) : world :=
  World (ddgs_atext w) (random_uniform w) (urlparse_netloc w)
        (Article_init w) (session_get w) (article_parse w) lat.

(** The slots after the tasks stored their results, in the order given. *)
Definition filled (w : world) (slots : list (option gathered))
    (tasks : list (nat * pystr)) : list (option gathered) :=
  foldl (λ sl task, <[task.1 := Some (GDict (worker_value w task.2))]> sl)
        slots tasks.

(** The events of one run of the worker of [url]. *)
Definition worker_events (w : world) (url : pystr) : list event :=
  match Article_init w url with
  | Raise _ => []
  | Return _ =>
      match session_get w url with
      | Raise _ => [EvGet url]
      | Return r =>
          if bool_decide (resp_status r ≠ 200%Z) then [EvGet url]
          else match resp_text r with
               | Raise _ => [EvGet url]
               | Return html => [EvGet url; EvParse url html]
               end
      end
  end.

(** The lines that the result for [url] adds to the digest. *)
Definition lines_of (w : world) (url : pystr) : list pystr :=
  let d := worker_value w url in
  match d !! "error" with
  | Some _ => []
  | None => block (default [] (d !! "title")) (default [] (d !! "text"))
  end.

Definition digest_lines (w : world) (urls : list pystr) : list pystr :=
  urls ≫= lines_of w.

(** The state with more events in its log. *)
Definition logged (s : state) (evs : list event) : state :=
  State (calls s) (draws s) (log s ++ evs).

(** The state after one call of the provider for [keyword]. *)
Definition searched (keyword : pystr) (s : state) : state :=
  State (S (calls s)) (draws s) (log s ++ [EvSearch keyword 15]).

(** The wait after attempt [attempt], when the product is in range. *)
Definition backoff_wait (initial_delay : Z) (attempt : nat) (jitter : float) : float :=
  (float_of_Z (initial_delay * 2 ^ Z.of_nat attempt) + jitter)%float.

(** The product [initial_delay * (2 ** attempt)] is in the range of binary64. *)
Definition fits (initial_delay : Z) (attempt : nat) : Prop :=
  is_infinity (float_of_Z (initial_delay * 2 ^ Z.of_nat attempt)) = false.

(** The events of [m] attempts, numbered from [attempt], that each fail and
    are followed by a wait; [draw] numbers the first random draw. *)
Fixpoint backoff_events (w : world) (keyword : pystr) (initial_delay : Z)
    (attempt m draw : nat) : list event :=
  match m with
  | O => []
  | S m' =>
      EvSearch keyword 15
      :: EvSleep (backoff_wait initial_delay attempt (random_uniform w draw))
      :: backoff_events w keyword initial_delay (S attempt) m' (S draw)
  end.

(** The state after these [m] attempts. *)
Definition after_failures (w : world) (keyword : pystr) (initial_delay : Z)
    (attempt m : nat) (s : state) : state :=
  State (calls s + m) (draws s + m)
        (log s ++ backoff_events w keyword initial_delay attempt m (draws s)).

(** The waits recorded in a log. *)
Definition sleeps (evs : list event) : list float :=
  omap (λ ev, match ev with EvSleep delay => Some delay | _ => None end) evs.

(** The first [m] calls of the provider from state [s] on raise an error of
    the provider. *)
Definition provider_fails (w : world) (keyword : pystr) (s : state) (m : nat) : Prop :=
  ∀ k, (k < m)%nat →
    ∃ e, ddgs_atext w (calls s + k) keyword 15 = Raise e
         ∧ is_provider_error e = true.

(** ** Vocabulary of the further properties *)

(** An ASCII character that is not whitespace. *)
Definition visible (c : pychar) : Prop := ord c < 128 ∧ isspace c = false.

#[global] Instance visible_dec c : Decision (visible c) :=
  and_dec (decide (ord c < 128)) (decide (isspace c = false)).

(** A character that cleaning removes when nothing visible surrounds it:
    whitespace, or not ASCII. *)
Definition blank (c : pychar) : Prop := isspace c = true ∨ 128 ≤ ord c.

(** The hosts of the urls that [urlparse] accepts. *)
Definition hosts (w : world) (cands : list pystr) : list pystr :=
  omap (λ url, match urlparse_netloc w url with
               | Return domain => Some domain
               | Raise _ => None
               end) cands.

(** [e] is raised by [urlparse] at the first url that it refuses. *)
Definition first_refused (w : world) (cands : list pystr) (e : exn) : Prop :=
  ∃ k url,
    cands !! k = Some url
    ∧ urlparse_netloc w url = Raise e
    ∧ ∀ j v, (j < k)%nat → cands !! j = Some v →
             ∃ domain, urlparse_netloc w v = Return domain.

(** The urls requested in a log, in the order of the requests. *)
Definition gets (evs : list event) : list pystr :=
  omap (λ ev, match ev with EvGet url => Some url | _ => None end) evs.

(** The requests of the worker of [url]: one, unless the article object
    cannot be built. *)
Definition requested (w : world) (url : pystr) : list pystr :=
  match Article_init w url with
  | Return _ => [url]
  | Raise _ => []
  end.

(** An element of the gathered list that the formatting loop can handle:
    not a dictionary, or a dictionary with an error, or one with a title and
    a text. *)
Definition formattable (g : gathered) : Prop :=
  match g with
  | GExc _ => True
  | GDict a =>
      is_Some (a !! "error") ∨ (is_Some (a !! "title") ∧ is_Some (a !! "text"))
  end.

(** What became of a url: [Some (title, text)] when the worker returns that
    title and text, [None] when it returns an error. *)
Definition outcome_of (w : world) (url : pystr) (o : option (pystr * pystr)) : Prop :=
  match o with
  | Some (title, text) => worker_returns w url (article_dict title text)
  | None => ∃ d, worker_returns w url d ∧ is_Some (d !! "error")
  end.


(** The lines that an element of the gathered list adds to the digest. *)
Definition lines_for (g : gathered) : list pystr :=
  match g with
  | GExc _ => []
  | GDict a =>
      match a !! "error", a !! "title", a !! "text" with
      | None, Some title, Some text =>
          [py "Title: " ++ title; py "Text: " ++ text; py "-----"]
      | _, _, _ => []
      end
  end.

(** * Properties *)

(** ** The model on the sample environments *)

Example clean_text_example :
  clean_text (Some (py "  caf" ++ [233] ++ py " " ++ [8212] ++ py " bar " ++ [10]))
  = py "caf    bar".
Proof. vm_compute. reflexivity. Qed.

Example str_of_int_example : str_of_int 404 = py "404".
Proof. vm_compute. reflexivity. Qed.

Example sample_netloc_example :
  sample_netloc (py "https://c.example/page?x=1") = Return (py "c.example").
Proof. vm_compute. reflexivity. Qed.

Example sample_dedupe :
  dedupe sample_world sample_results
  = Return [py "https://a.example/one"; py "https://b.example/";
            py "https://c.example/page?x=1"; py "https://d.example"].
Proof. vm_compute. reflexivity. Qed.

(** Of the four urls, the second answers 500 and the third times out. *)
Example sample_digest :
  (get_material sample_world (py "rust") 5 1 initial_state).1
  = Return (Some (join newline
      [py "Title: Caf  1"; py "Text: <html>A</html>"; py "-----";
       py "Title: Caf  1"; py "Text: <html>D</html>"; py "-----"])).
Proof. vm_compute. reflexivity. Qed.

(** The fetches complete in reverse order. *)
Example sample_log :
  log (get_material sample_world (py "rust") 5 1 initial_state).2
  = [EvSearch (py "rust") 15;
     EvGet (py "https://d.example");
     EvParse (py "https://d.example") (py "<html>D</html>");
     EvGet (py "https://c.example/page?x=1");
     EvGet (py "https://b.example/");
     EvGet (py "https://a.example/one");
     EvParse (py "https://a.example/one") (py "<html>A</html>")].
Proof. vm_compute. reflexivity. Qed.

Example ratelimited_response :
  (search ratelimited_world (py "rust") initial_state).1
  = HttpResponse 500 {[ "detail" := JStr (py "ratelimit 4") ]}.
Proof. vm_compute. reflexivity. Qed.

(** *** Stripping *)

Section Strip.

Lemma lstrip_split (s : pystr) :
  ∃ pre, s = pre ++ lstrip s ∧ Forall (λ c, isspace c = true) pre.
Proof.
  induction s as [|c s [pre [Heq Hpre]]]; simpl.
  - by exists [].
  - destruct (isspace c) eqn:Hc.
    + exists (c :: pre). split; [simpl; by f_equal | by constructor].
    + by exists [].
Qed.

Lemma lstrip_head (s : pystr) : not_space (head (lstrip s)).
Proof.
  induction s as [|c s IH]; simpl; [done|].
  destruct (isspace c) eqn:Hc; [done | by simpl].
Qed.

Lemma lstrip_id (s : pystr) : not_space (head s) → lstrip s = s.
Proof. destruct s as [|c s]; simpl; [done|]. by intros ->. Qed.

Lemma rstrip_split (s : pystr) :
  ∃ post, s = rstrip s ++ post ∧ Forall (λ c, isspace c = true) post.
Proof.
  unfold rstrip. destruct (lstrip_split (reverse s)) as [pre [Heq Hpre]].
  exists (reverse pre). split; [|by apply Forall_reverse].
  rewrite <- reverse_app, <- Heq. by rewrite reverse_involutive.
Qed.

Lemma rstrip_last (s : pystr) : not_space (last (rstrip s)).
Proof. unfold rstrip. rewrite last_reverse. apply lstrip_head. Qed.

Lemma rstrip_id (s : pystr) : not_space (last s) → rstrip s = s.
Proof.
  intros H. unfold rstrip. rewrite lstrip_id.
  - apply reverse_involutive.
  - by rewrite head_reverse.
Qed.

Lemma rstrip_head (s : pystr) : not_space (head s) → not_space (head (rstrip s)).
Proof.
  intros H. destruct (rstrip_split s) as [post [Heq _]].
  destruct (rstrip s) as [|c r]; [done|].
  rewrite Heq in H. exact H.
Qed.

Lemma strip_split (s : pystr) :
  ∃ pre post, s = pre ++ strip s ++ post
    ∧ Forall (λ c, isspace c = true) pre
    ∧ Forall (λ c, isspace c = true) post.
Proof.
  destruct (lstrip_split s) as [pre [Hl Hpre]].
  destruct (rstrip_split (lstrip s)) as [post [Hr Hpost]].
  exists pre, post. unfold strip. by rewrite <- Hr.
Qed.

Lemma strip_head (s : pystr) : not_space (head (strip s)).
Proof. apply rstrip_head, lstrip_head. Qed.

Lemma strip_last (s : pystr) : not_space (last (strip s)).
Proof. apply rstrip_last. Qed.

Lemma strip_id (s : pystr) :
  not_space (head s) → not_space (last s) → strip s = s.
Proof. intros Hh Hl. unfold strip. rewrite (lstrip_id s Hh). by apply rstrip_id. Qed.

Lemma strip_Forall (P : pychar → Prop) (s : pystr) :
  Forall P s → Forall P (strip s).
Proof.
  intros H. destruct (strip_split s) as (pre & post & Heq & _).
  rewrite Heq in H. apply Forall_app in H as [_ H].
  by apply Forall_app in H as [H _].
Qed.

End Strip.

(** *** Cleaning *)

Section CleanText.

Lemma ascii_or_space_is_ascii (c : pychar) : is_ascii (ascii_or_space c).
Proof.
  unfold is_ascii, ascii_or_space, ord, space.
  destruct (c <? 128) eqn:H; [by apply N.ltb_lt | lia].
Qed.

Lemma ascii_or_space_id (c : pychar) : is_ascii c → ascii_or_space c = c.
Proof.
  unfold is_ascii, ascii_or_space, ord. intros H.
  by apply N.ltb_lt in H as ->.
Qed.

Lemma clean_text_unfold (s : pystr) :
  clean_text (Some s) = strip (ascii_or_space <$> s).
Proof. by destruct s. Qed.

Lemma clean_text_is_ascii (t : option pystr) : Forall is_ascii (clean_text t).
Proof.
  destruct t as [s|]; [|constructor].
  rewrite clean_text_unfold. apply strip_Forall.
  apply Forall_fmap, Forall_true. intros c. apply ascii_or_space_is_ascii.
Qed.

Lemma clean_text_head (t : option pystr) : not_space (head (clean_text t)).
Proof.
  destruct t as [s|]; [|done].
  rewrite clean_text_unfold. apply strip_head.
Qed.

Lemma clean_text_last (t : option pystr) : not_space (last (clean_text t)).
Proof.
  destruct t as [s|]; [|done].
  rewrite clean_text_unfold. apply strip_last.
Qed.

Lemma fmap_ascii_or_space_id (s : pystr) :
  Forall is_ascii s → ascii_or_space <$> s = s.
Proof.
  induction 1 as [|c s Hc _ IH]; [done|].
  rewrite fmap_cons, IH. by rewrite ascii_or_space_id.
Qed.

End CleanText.

(** C8. Cleaning replaces each non-ASCII character by exactly one space
  (the replaced string has the length of the input, keeps every ASCII
  character in place and has a space wherever the input has a non-ASCII
  character), then removes exactly a run of leading and a run of trailing
  whitespace, leaving no whitespace at either end; for [None] and for the
  empty string the result is the empty string. *)
Theorem clean_text_sanitizes :
(∀ s : pystr,
    ∃ replaced pre post : pystr,
      length replaced = length s
      ∧ (∀ i c, s !! i = Some c →
           replaced !! i = Some (if ord c <? 128 then c else space))
      ∧ replaced = pre ++ clean_text (Some s) ++ post
      ∧ Forall (λ c, isspace c = true) pre
      ∧ Forall (λ c, isspace c = true) post
      ∧ not_space (head (clean_text (Some s)))
      ∧ not_space (last (clean_text (Some s))))
∧ clean_text None = []
∧ clean_text (Some []) = [].
Proof.
split; [|done].
intros s.
destruct (strip_split (ascii_or_space <$> s)) as (pre & post & Heq & Hpre & Hpost).
exists (ascii_or_space <$> s), pre, post.
rewrite clean_text_unfold. repeat split; try done.
- by rewrite length_fmap.
- intros i c Hi. by rewrite list_lookup_fmap, Hi.
- apply strip_head.
- apply strip_last.
Qed.

Lemma clean_text_sanitizes_witness :
  ∃ replaced pre post : pystr,
    replaced !! 1%nat = Some space
    ∧ replaced = pre ++ clean_text (Some (py " " ++ [233] ++ py "x ")) ++ post.
Proof.
  destruct clean_text_sanitizes as [H _].
  destruct (H (py " " ++ [233] ++ py "x "))
    as (replaced & pre & post & _ & Hrep & Heq & _).
  exists replaced, pre, post. split; [|exact Heq].
  apply (Hrep 1%nat 233). reflexivity.
Defined.

(** *** The worker *)

Section Worker.

Context (w : world).

Lemma fetch_and_parse_article_init_raises url e s :
  Article_init w url = Raise e →
  fetch_and_parse_article w url s = (Return (error_dict url (str_of_exn e)), s).
Proof.
  intros H. unfold fetch_and_parse_article, try_except, mbind, M_bind, lift.
  by rewrite H.
Qed.

Lemma fetch_and_parse_article_get_raises url e s :
  Article_init w url = Return () →
  session_get w url = Raise e →
  fetch_and_parse_article w url s
  = (Return (error_dict url (str_of_exn e)), after_get url s).
Proof.
  intros Hi Hg.
  unfold fetch_and_parse_article, try_except, get, emit, mbind, M_bind, lift.
  by rewrite Hi, Hg.
Qed.

Lemma fetch_and_parse_article_not_200 url r s :
  Article_init w url = Return () →
  session_get w url = Return r →
  resp_status r ≠ 200%Z →
  fetch_and_parse_article w url s
  = (Return (error_dict url (py "HTTP " ++ str_of_int (resp_status r))),
     after_get url s).
Proof.
  intros Hi Hg Hs.
  unfold fetch_and_parse_article, try_except, get, emit, mbind, M_bind, lift.
  rewrite Hi, Hg. by rewrite bool_decide_eq_true_2.
Qed.

Lemma fetch_and_parse_article_text_raises url r e s :
  Article_init w url = Return () →
  session_get w url = Return r →
  resp_status r = 200%Z →
  resp_text r = Raise e →
  fetch_and_parse_article w url s
  = (Return (error_dict url (str_of_exn e)), after_get url s).
Proof.
  intros Hi Hg Hs Ht.
  unfold fetch_and_parse_article, try_except, get, emit, mbind, M_bind, lift.
  rewrite Hi, Hg. rewrite bool_decide_eq_false_2 by (intros ?; done).
  by rewrite Ht.
Qed.

Lemma fetch_and_parse_article_parse_raises url r html e s :
  Article_init w url = Return () →
  session_get w url = Return r →
  resp_status r = 200%Z →
  resp_text r = Return html →
  article_parse w url html = Raise e →
  fetch_and_parse_article w url s
  = (Return (error_dict url (str_of_exn e)), after_parse url html s).
Proof.
  intros Hi Hg Hs Ht Hp.
  unfold fetch_and_parse_article, try_except, get, parse, emit, mbind, M_bind, lift.
  rewrite Hi, Hg. rewrite bool_decide_eq_false_2 by (intros ?; done).
  rewrite Ht. simpl. by rewrite Hp.
Qed.

Lemma fetch_and_parse_article_success url r html a s :
  Article_init w url = Return () →
  session_get w url = Return r →
  resp_status r = 200%Z →
  resp_text r = Return html →
  article_parse w url html = Return a →
  fetch_and_parse_article w url s
  = (Return (article_dict (clean_text (Some (art_title a)))
                          (clean_text (Some (take (N.to_nat 10000) (art_text a))))),
     after_parse url html s).
Proof.
  intros Hi Hg Hs Ht Hp.
  unfold fetch_and_parse_article, try_except, get, parse, emit, mbind, M_bind, lift.
  rewrite Hi, Hg. rewrite bool_decide_eq_false_2 by (intros ?; done).
  rewrite Ht. simpl. by rewrite Hp.
Qed.

(** Exactly one of the three happens. *)
Lemma worker_cases url :
  (∃ e, worker_exception w url e)
  ∨ (∃ status, worker_bad_status w url status)
  ∨ (∃ html a, worker_extracts w url html a).
Proof.
  destruct (Article_init w url) as [[]|e] eqn:Hi;
    [|left; exists e; by apply exception_in_init].
  destruct (session_get w url) as [r|e] eqn:Hg;
    [|left; exists e; by apply exception_in_get].
  destruct (decide (resp_status r = 200%Z)) as [Hs|Hs];
    [|right; left; exists (resp_status r), r; done].
  destruct (resp_text r) as [html|e] eqn:Ht;
    [|left; exists e; by eapply exception_in_text].
  destruct (article_parse w url html) as [a|e] eqn:Hp;
    [|left; exists e; by eapply exception_in_parse].
  right; right. exists html, a, r. done.
Qed.

Lemma worker_exception_result url e s :
  worker_exception w url e →
  (fetch_and_parse_article w url s).1 = Return (error_dict url (str_of_exn e)).
Proof.
  intros [H | Hi H | r Hi Hg Hs H | r html Hi Hg Hs Ht H].
  - by rewrite (fetch_and_parse_article_init_raises _ _ _ H).
  - by rewrite (fetch_and_parse_article_get_raises _ _ _ Hi H).
  - by rewrite (fetch_and_parse_article_text_raises _ _ _ _ Hi Hg Hs H).
  - by rewrite (fetch_and_parse_article_parse_raises _ _ _ _ _ Hi Hg Hs Ht H).
Qed.

Lemma worker_bad_status_result url status s :
  worker_bad_status w url status →
  fetch_and_parse_article w url s
  = (Return (error_dict url (py "HTTP " ++ str_of_int status)), after_get url s).
Proof.
  intros (r & Hi & Hg & <- & Hs).
  by apply fetch_and_parse_article_not_200.
Qed.

Lemma worker_extracts_result url html a s :
  worker_extracts w url html a →
  fetch_and_parse_article w url s
  = (Return (article_dict (clean_text (Some (art_title a)))
                          (clean_text (Some (take (N.to_nat 10000) (art_text a))))),
     after_parse url html s).
Proof.
  intros (r & Hi & Hg & Hs & Ht & Hp).
  by eapply fetch_and_parse_article_success.
Qed.

(** The worker always returns a dictionary, the same from every state. *)
Lemma worker_always_returns url :
  ∃ d, ∀ s, (fetch_and_parse_article w url s).1 = Return d.
Proof.
  destruct (worker_cases url) as [[e H] | [[status H] | (html & a & H)]].
  - eexists. intros s. by apply worker_exception_result.
  - eexists. intros s. by rewrite (worker_bad_status_result _ _ _ H).
  - eexists. intros s. by rewrite (worker_extracts_result _ _ _ _ H).
Qed.

Lemma error_dict_has_error url msg : error_dict url msg !! "error" = Some msg.
Proof. done. Qed.

Lemma article_dict_no_error title text : article_dict title text !! "error" = None.
Proof. done. Qed.

Lemma article_dict_title title text : article_dict title text !! "title" = Some title.
Proof. done. Qed.

Lemma article_dict_text title text : article_dict title text !! "text" = Some text.
Proof. done. Qed.

(** A result without error comes from a successful extraction. *)
Lemma worker_success url s s' d :
  fetch_and_parse_article w url s = (Return d, s') →
  d !! "error" = None →
  ∃ html a,
    worker_extracts w url html a
    ∧ d = article_dict (clean_text (Some (art_title a)))
                       (clean_text (Some (take (N.to_nat 10000) (art_text a)))).
Proof.
  intros Hrun Hok.
  destruct (worker_cases url) as [[e He] | [[status Hb] | (html & a & H)]].
  - pose proof (worker_exception_result _ _ s He) as Hr.
    rewrite Hrun in Hr. simpl in Hr.
    assert (d = error_dict url (str_of_exn e)) as -> by congruence.
    by rewrite error_dict_has_error in Hok.
  - rewrite (worker_bad_status_result _ _ s Hb) in Hrun.
    assert (d = error_dict url (py "HTTP " ++ str_of_int status)) as ->
      by congruence.
    by rewrite error_dict_has_error in Hok.
  - rewrite (worker_extracts_result _ _ _ s H) in Hrun.
    exists html, a. split; [done|]. congruence.
Qed.

End Worker.

(** C4. The worker never raises.  A status other than 200 gives the
    dictionary with the url under "url" and "HTTP <status>", the status in
    decimal, under "error", and the extraction is not attempted (the only
    event is the request); an exception raised while building the article,
    fetching, reading the body or extracting gives the dictionary with the
    url under "url" and the message of the exception under "error"; in
    every other case the result is a dictionary with a "title" and a
    "text" and nothing else. *)
Theorem fetch_and_parse_article_never_raises :
  ∀ (w : world) (url : pystr) (s : state),
    ∃ d s',
      fetch_and_parse_article w url s = (Return d, s')
      ∧ (∀ status, worker_bad_status w url status →
           d = {[ "url" := url;
                  "error" := py "HTTP "
                             ++ py (NilZero.string_of_int (Z.to_int status)) ]}
           ∧ log s' = log s ++ [EvGet url])
      ∧ (∀ e, worker_exception w url e →
           d = {[ "url" := url; "error" := exn_msg e ]})
      ∧ ((¬ ∃ status, worker_bad_status w url status) →
         (¬ ∃ e, worker_exception w url e) →
           ∃ title text, d = {[ "title" := title; "text" := text ]}).
Proof.
  intros w url s.
  destruct (fetch_and_parse_article w url s) as [o s'] eqn:Hrun.
  destruct (worker_always_returns w url) as [d Hd].
  specialize (Hd s). rewrite Hrun in Hd. simpl in Hd. subst o.
  exists d, s'. split; [done|]. split; [|split].
  - intros status Hbad.
    rewrite (worker_bad_status_result _ _ _ s Hbad) in Hrun.
    split; [|by inversion Hrun].
    assert (d = error_dict url (py "HTTP " ++ str_of_int status)) as ->
      by congruence.
    reflexivity.
  - intros e He.
    pose proof (worker_exception_result _ _ _ s He) as H.
    rewrite Hrun in H. simpl in H.
    assert (d = error_dict url (str_of_exn e)) as -> by congruence.
    reflexivity.
  - intros Hnb Hne.
    destruct (worker_cases w url) as [He | [Hb | (html & a & H)]]; [done..|].
    rewrite (worker_extracts_result _ _ _ _ s H) in Hrun.
    eexists _, _.
    assert (d = article_dict (clean_text (Some (art_title a)))
                  (clean_text (Some (take (N.to_nat 10000) (art_text a)))))
      as -> by congruence.
    reflexivity.
Qed.

Lemma fetch_and_parse_article_never_raises_witness :
  ∃ d s',
    fetch_and_parse_article sample_world (py "https://b.example/") initial_state
    = (Return d, s')
    ∧ d = {[ "url" := py "https://b.example/"; "error" := py "HTTP 500" ]}
    ∧ log s' = [EvGet (py "https://b.example/")].
Proof.
  destruct (fetch_and_parse_article_never_raises
              sample_world (py "https://b.example/") initial_state)
    as (d & s' & Hrun & Hbad & _).
  exists d, s'. split; [exact Hrun|].
  apply (Hbad 500%Z).
  exists (Response 500 (Return (py "<html>oops</html>"))).
  repeat split; vm_compute; congruence.
Defined.

(** C10. The result of cleaning is pure ASCII and has no whitespace at
    either end, and cleaning a cleaned string changes nothing; so the title
    and the text of every result of the worker without error, which are the
    fields that go into the digest, are pure ASCII without whitespace at
    either end. *)
Theorem clean_text_ascii_trimmed_idempotent :
  (∀ t : option pystr,
      Forall (λ c, ord c < 128) (clean_text t)
      ∧ not_space (head (clean_text t))
      ∧ not_space (last (clean_text t))
      ∧ clean_text (Some (clean_text t)) = clean_text t)
  ∧ (∀ (w : world) (url : pystr) (s s' : state) (d : dict)
       (field : string) (v : pystr),
       fetch_and_parse_article w url s = (Return d, s') →
       d !! "error" = None →
       field = "title" ∨ field = "text" →
       d !! field = Some v →
       Forall (λ c, ord c < 128) v ∧ not_space (head v) ∧ not_space (last v)).
Proof.
  split.
  - intros t. repeat split.
    + apply clean_text_is_ascii.
    + apply clean_text_head.
    + apply clean_text_last.
    + rewrite clean_text_unfold.
      rewrite fmap_ascii_or_space_id by apply clean_text_is_ascii.
      apply strip_id; [apply clean_text_head | apply clean_text_last].
  - intros w url s s' d field v Hrun Hok Hfield Hv.
    destruct (worker_success w url s s' d Hrun Hok) as (html & a & _ & ->).
    destruct Hfield as [-> | ->].
    + rewrite article_dict_title in Hv. apply (inj Some) in Hv. subst v.
      split; [apply clean_text_is_ascii|].
      split; [apply clean_text_head | apply clean_text_last].
    + rewrite article_dict_text in Hv. apply (inj Some) in Hv. subst v.
      split; [apply clean_text_is_ascii|].
      split; [apply clean_text_head | apply clean_text_last].
Qed.

Lemma clean_text_ascii_trimmed_idempotent_witness :
  Forall (λ c, ord c < 128) (py "Caf  1")
  ∧ not_space (head (py "Caf  1"))
  ∧ not_space (last (py "Caf  1")).
Proof.
  destruct clean_text_ascii_trimmed_idempotent as [_ H].
  apply (H sample_world (py "https://a.example/one") initial_state
           (after_parse (py "https://a.example/one") (py "<html>A</html>")
                        initial_state)
           (article_dict (py "Caf  1") (py "<html>A</html>"))
           "title" (py "Caf  1")).
  - vm_compute. reflexivity.
  - vm_compute. reflexivity.
  - by left.
  - vm_compute. reflexivity.
Defined.



(** *** De-duplication *)

Section Dedupe.

Context (w : world).

Lemma url_of_Some result url :
  url_of result = Some url → result !! "href" = Some url ∧ url ≠ [].
Proof.
  unfold url_of. destruct (result !! "href") as [[|c u]|]; [done| |done].
  intros [= <-]. done.
Qed.

Lemma url_of_as_result url : url ≠ [] → url_of (as_result url) = Some url.
Proof.
  intros Hne. unfold url_of, as_result. rewrite lookup_singleton_eq.
  by destruct url.
Qed.

Lemma candidates_nonempty results : Forall (λ url, url ≠ []) (candidates results).
Proof.
  unfold candidates. induction results as [|r results IH]; [constructor|].
  simpl. destruct (url_of r) as [url|] eqn:Hr; [|done].
  constructor; [|done]. by apply url_of_Some in Hr as [_ ?].
Qed.

Lemma candidates_as_result urls :
  Forall (λ url, url ≠ []) urls → candidates (as_result <$> urls) = urls.
Proof.
  unfold candidates. induction 1 as [|url urls Hne _ IH]; [done|].
  csimpl. rewrite (url_of_as_result _ Hne). csimpl. by rewrite IH.
Qed.

(** One step of the loop, in terms of the url of the entry. *)
Lemma dedupe_loop_cons_skip result rest urls seen :
  url_of result = None →
  dedupe_loop w (result :: rest) urls seen = dedupe_loop w rest urls seen.
Proof.
  unfold url_of. simpl. by destruct (result !! "href") as [[|c u]|].
Qed.

Lemma dedupe_loop_cons_url result url rest urls seen :
  url_of result = Some url →
  dedupe_loop w (result :: rest) urls seen =
    match urlparse_netloc w url with
    | Raise e => Raise e
    | Return domain =>
        if decide (domain ∈ seen)
        then dedupe_loop w rest urls seen
        else dedupe_loop w rest (urls ++ [url]) (seen ∪ {[domain]})
    end.
Proof.
  unfold url_of. simpl. destruct (result !! "href") as [[|c u]|]; [done| |done].
  by intros [= <-].
Qed.

(** The loop computes [kept] on the candidates. *)
Lemma dedupe_loop_kept results urls seen out :
  dedupe_loop w results urls seen = Return out →
  ∃ new, out = urls ++ new ∧ kept w seen (candidates results) new.
Proof.
  revert urls seen. induction results as [|r results IH]; intros urls seen.
  - simpl. intros [= <-]. exists []. split; [by rewrite app_nil_r | constructor].
  - unfold candidates. simpl omap. destruct (url_of r) as [url|] eqn:Hr.
    + rewrite (dedupe_loop_cons_url _ _ _ _ _ Hr).
      destruct (urlparse_netloc w url) as [domain|e] eqn:Hn; [|done].
      destruct (decide (domain ∈ seen)) as [Hin|Hnin]; intros Hloop.
      * destruct (IH _ _ Hloop) as (new & -> & Hk).
        exists new. split; [done|]. by eapply kept_skip.
      * destruct (IH _ _ Hloop) as (new & -> & Hk).
        exists (url :: new). split; [by rewrite <- app_assoc|].
        by eapply kept_take.
    + rewrite (dedupe_loop_cons_skip _ _ _ _ Hr). apply IH.
Qed.

(** Conversely the loop returns what [kept] says. *)
Lemma kept_dedupe_loop results urls seen new :
  kept w seen (candidates results) new →
  dedupe_loop w results urls seen = Return (urls ++ new).
Proof.
  revert urls seen new. induction results as [|r results IH]; intros urls seen new.
  - inversion 1. simpl. by rewrite app_nil_r.
  - unfold candidates. simpl omap. destruct (url_of r) as [url|] eqn:Hr.
    + rewrite (dedupe_loop_cons_url _ _ _ _ _ Hr). simpl.
      inversion 1 as [| ? ? domain ? ? Hn Hin Hk | ? ? domain ? ? Hn Hnin Hk]; subst.
      * rewrite Hn. rewrite decide_True by done. by apply IH.
      * rewrite Hn. rewrite decide_False by done.
        rewrite (IH _ _ _ Hk). by rewrite <- app_assoc.
    + rewrite (dedupe_loop_cons_skip _ _ _ _ Hr). apply IH.
Qed.

(** The loop returns as soon as every candidate has a host. *)
Lemma kept_exists cands seen :
  Forall (λ url, ∃ domain, urlparse_netloc w url = Return domain) cands →
  ∃ new, kept w seen cands new.
Proof.
  intros H. revert seen. induction H as [|url cands [domain Hn] _ IH]; intros seen.
  - exists []. constructor.
  - destruct (decide (domain ∈ seen)) as [Hin|Hnin].
    + destruct (IH seen) as [new Hk]. exists new. by eapply kept_skip.
    + destruct (IH (seen ∪ {[domain]})) as [new Hk].
      exists (url :: new). by eapply kept_take.
Qed.

Lemma kept_all_parsed seen cands new :
  kept w seen cands new →
  Forall (λ url, ∃ domain, urlparse_netloc w url = Return domain) cands.
Proof. induction 1; constructor; eauto. Qed.

Lemma kept_sublist seen cands new : kept w seen cands new → new `sublist_of` cands.
Proof.
  induction 1; [constructor | by apply sublist_cons | by apply sublist_skip].
Qed.

Lemma kept_fresh seen cands new url :
  kept w seen cands new → url ∈ new →
  ∃ domain, urlparse_netloc w url = Return domain ∧ domain ∉ seen.
Proof.
  induction 1 as [| |seen u domain cands new Hn Hnin Hk IH]; intros Hin.
  - by apply elem_of_nil in Hin.
  - auto.
  - apply elem_of_cons in Hin as [->|Hin]; [eauto|].
    destruct (IH Hin) as (d & Hd & Hnd). exists d. split; [done|].
    by apply not_elem_of_union in Hnd as [? _].
Qed.

Lemma kept_NoDup seen cands new :
  kept w seen cands new → NoDup (urlparse_netloc w <$> new).
Proof.
  induction 1 as [| |seen u domain cands new Hn Hnin Hk IH].
  - constructor.
  - done.
  - rewrite fmap_cons. constructor; [|done].
    intros Hin. apply list_elem_of_fmap in Hin as (v & Hv & Hvin).
    destruct (kept_fresh _ _ _ _ Hk Hvin) as (d & Hd & Hnd).
    rewrite Hn, Hd in Hv. injection Hv as ->.
    apply Hnd, elem_of_union. right. by apply elem_of_singleton.
Qed.

(** The first url of a host not yet taken is taken. *)
Lemma kept_first seen cands new k url domain :
  kept w seen cands new →
  cands !! k = Some url →
  urlparse_netloc w url = Return domain →
  domain ∉ seen →
  (∀ j v, (j < k)%nat → cands !! j = Some v → urlparse_netloc w v ≠ Return domain) →
  url ∈ new.
Proof.
  intros Hk. revert k.
  induction Hk as [|seen u d cands new Hn Hin Hk IH|seen u d cands new Hn Hnin Hk IH];
    intros k Hlook Hdom Hfresh Hfirst.
  - done.
  - destruct k as [|k]; simpl in Hlook.
    + injection Hlook as ->. rewrite Hn in Hdom. injection Hdom as ->. done.
    + apply (IH k); [done..|].
      intros j v Hj Hv. apply (Hfirst (S j) v); [lia | done].
  - destruct k as [|k]; simpl in Hlook.
    + injection Hlook as ->. apply elem_of_cons. by left.
    + apply elem_of_cons. right. apply (IH k); [done..| |].
      * assert (urlparse_netloc w u ≠ Return domain) as Hne
          by (apply (Hfirst 0%nat u); [lia | done]).
        rewrite Hn in Hne. apply not_elem_of_union. split; [done|].
        intros ->%elem_of_singleton. done.
      * intros j v Hj Hv. apply (Hfirst (S j) v); [lia | done].
Qed.

(** A url that is taken is the first of its host. *)
Lemma kept_is_first seen cands new url :
  kept w seen cands new → url ∈ new →
  ∃ k domain,
    cands !! k = Some url
    ∧ urlparse_netloc w url = Return domain
    ∧ (domain ∉ seen)
    ∧ ∀ j v, (j < k)%nat → cands !! j = Some v → urlparse_netloc w v ≠ Return domain.
Proof.
  induction 1 as [|seen u d cands new Hn Hin Hk IH|seen u d cands new Hn Hnin Hk IH];
    intros Hel.
  - by apply elem_of_nil in Hel.
  - destruct (IH Hel) as (k & domain & Hlook & Hdom & Hfresh & Hfirst).
    exists (S k), domain. repeat split; [done..|].
    intros [|j] v Hj Hv; simpl in Hv.
    + injection Hv as <-. rewrite Hn. intros [= ->]. done.
    + apply (Hfirst j v); [lia | done].
  - apply elem_of_cons in Hel as [->|Hel].
    + exists 0%nat, d. repeat split; [done..|]. intros j v Hj. lia.
    + destruct (IH Hel) as (k & domain & Hlook & Hdom & Hfresh & Hfirst).
      exists (S k), domain.
      repeat split; [done.. | by apply not_elem_of_union in Hfresh as [? _] |].
      intros [|j] v Hj Hv; simpl in Hv.
      * injection Hv as <-. rewrite Hn. intros [= ->].
        apply Hfresh, elem_of_union. right. by apply elem_of_singleton.
      * apply (Hfirst j v); [lia | done].
Qed.

(** Taking from what was taken takes everything. *)
Lemma kept_again seen cands new : kept w seen cands new → kept w seen new new.
Proof.
  induction 1 as [| |seen u d cands new Hn Hnin Hk IH];
    [constructor | done | by eapply kept_take].
Qed.

End Dedupe.

(** C5. De-duplication returns unless [urlparse] refuses a url, and then:
    entries without url are skipped (every url of the output is the
    non-empty [href] of an entry), the output is a subsequence of the urls of
    the input in their order, no two urls of the output have the same host,
    and for every host exactly the first url seen with it is kept. *)
Theorem dedupe_one_url_per_host :
  ∀ (w : world) (results : list dict),
    ((∀ url, url ∈ candidates results →
        ∃ domain, urlparse_netloc w url = Return domain) →
     ∃ urls, dedupe w results = Return urls)
    ∧ ∀ urls, dedupe w results = Return urls →
        (∀ url, url ∈ urls →
           url ≠ [] ∧ ∃ result, result ∈ results ∧ result !! "href" = Some url)
        ∧ urls `sublist_of` candidates results
        ∧ NoDup (urlparse_netloc w <$> urls)
        ∧ (∀ url, url ∈ urls → ∃ domain, urlparse_netloc w url = Return domain)
        ∧ (∀ k url domain,
             candidates results !! k = Some url →
             urlparse_netloc w url = Return domain →
             (∀ j v, (j < k)%nat → candidates results !! j = Some v →
                     urlparse_netloc w v ≠ Return domain) →
             url ∈ urls)
        ∧ (∀ url, url ∈ urls →
             ∃ k domain,
               candidates results !! k = Some url
               ∧ urlparse_netloc w url = Return domain
               ∧ ∀ j v, (j < k)%nat → candidates results !! j = Some v →
                        urlparse_netloc w v ≠ Return domain).
Proof.
  intros w results. split.
  - intros Hall. apply Forall_forall in Hall.
    destruct (kept_exists w _ ∅ Hall) as [new Hk].
    exists new. unfold dedupe. by rewrite (kept_dedupe_loop _ _ _ _ _ Hk).
  - intros urls Hrun. unfold dedupe in Hrun.
    apply dedupe_loop_kept in Hrun as (new & -> & Hk). simpl.
    pose proof (kept_sublist _ _ _ _ Hk) as Hsub.
    split; [|split; [done|]; split; [by eapply kept_NoDup|]; split; [|split]].
    + intros url Hin. pose proof (elem_of_sublist _ _ _ Hin Hsub) as Hc.
      apply list_elem_of_omap in Hc as (r & Hr & Hu).
      apply url_of_Some in Hu as [Hu Hne]. eauto.
    + intros url Hin. destruct (kept_fresh _ _ _ _ _ Hk Hin) as (d & Hd & _). eauto.
    + intros k url domain Hlook Hdom Hfirst.
      eapply kept_first;
        [exact Hk | exact Hlook | exact Hdom | apply not_elem_of_empty | exact Hfirst].
    + intros url Hin.
      destruct (kept_is_first _ _ _ _ _ Hk Hin) as (k & d & Hlook & Hd & _ & Hfirst).
      eauto.
Qed.

Lemma dedupe_one_url_per_host_witness :
  [py "https://a.example/one"; py "https://b.example/";
   py "https://c.example/page?x=1"; py "https://d.example"]
    `sublist_of` candidates sample_results
  ∧ NoDup (urlparse_netloc sample_world <$>
             [py "https://a.example/one"; py "https://b.example/";
              py "https://c.example/page?x=1"; py "https://d.example"]).
Proof.
  destruct (dedupe_one_url_per_host sample_world sample_results) as [_ H].
  destruct (H [py "https://a.example/one"; py "https://b.example/";
               py "https://c.example/page?x=1"; py "https://d.example"])
    as (_ & Hsub & Hnodup & _).
  - vm_compute. reflexivity.
  - split; [exact Hsub | exact Hnodup].
Defined.

(** C6. De-duplicating the output of a de-duplication, each url put back
    into a search result, returns that output unchanged. *)
Theorem dedupe_idempotent :
  ∀ (w : world) (results : list dict) (urls : list pystr),
    dedupe w results = Return urls →
    dedupe w (as_result <$> urls) = Return urls.
Proof.
  intros w results urls Hrun. unfold dedupe in *.
  apply dedupe_loop_kept in Hrun as (new & -> & Hk). simpl.
  assert (Forall (λ url, url ≠ []) new) as Hne.
  { apply Forall_forall. intros url Hin.
    pose proof (candidates_nonempty results) as Hc.
    rewrite Forall_forall in Hc. apply Hc.
    eapply elem_of_sublist; [exact Hin | by eapply kept_sublist]. }
  apply (kept_dedupe_loop w (as_result <$> new) [] ∅ new).
  rewrite (candidates_as_result _ Hne). by eapply kept_again.
Qed.

Lemma dedupe_idempotent_witness :
  dedupe sample_world
    (as_result <$> [py "https://a.example/one"; py "https://b.example/";
                    py "https://c.example/page?x=1"; py "https://d.example"])
  = Return [py "https://a.example/one"; py "https://b.example/";
            py "https://c.example/page?x=1"; py "https://d.example"].
Proof.
  apply (dedupe_idempotent sample_world sample_results).
  vm_compute. reflexivity.
Defined.

(** *** Fan-out *)

Section Gather.

Context (w : world).

Lemma worker_value_returns url : worker_returns w url (worker_value w url).
Proof.
  destruct (worker_always_returns w url) as [d Hd]. intros s.
  unfold worker_value. by rewrite !Hd.
Qed.

Lemma worker_returns_unique url d :
  worker_returns w url d → d = worker_value w url.
Proof.
  intros Hd. pose proof (worker_value_returns url (State 0 0 [])) as H.
  rewrite (Hd (State 0 0 [])) in H. by injection H.
Qed.

Lemma worker_value_with_latency lat url :
  worker_value (with_latency w lat) url = worker_value w url.
Proof. reflexivity. Qed.

Lemma filled_cons task tasks slots :
  filled w slots (task :: tasks)
  = filled w (<[task.1 := Some (GDict (worker_value w task.2))]> slots) tasks.
Proof. reflexivity. Qed.

Lemma complete_tasks_filled tasks slots s :
  (complete_tasks w tasks slots s).1 = Return (filled w slots tasks).
Proof.
  revert slots s. induction tasks as [|[i url] tasks IH]; intros slots s; [done|].
  rewrite filled_cons. simpl. unfold mbind, M_bind, complete_task. simpl.
  pose proof (worker_value_returns url s) as Hv.
  destruct (fetch_and_parse_article w url s) as [[d|e] s1]; simpl in Hv; [|done].
  injection Hv as ->. apply IH.
Qed.

Lemma length_filled tasks slots : length (filled w slots tasks) = length slots.
Proof.
  revert slots. induction tasks as [|t tasks IH]; intros slots; [done|].
  by rewrite filled_cons, IH, length_insert.
Qed.

Lemma filled_lookup_other tasks slots i :
  i ∉ tasks.*1 → filled w slots tasks !! i = slots !! i.
Proof.
  revert slots. induction tasks as [|[j u] tasks IH]; intros slots Hi; [done|].
  rewrite fmap_cons, not_elem_of_cons in Hi. destruct Hi as [Hne Hi].
  rewrite filled_cons, (IH _ Hi). by apply list_lookup_insert_ne.
Qed.

Lemma filled_lookup tasks slots i url :
  NoDup tasks.*1 → (i, url) ∈ tasks → (i < length slots)%nat →
  filled w slots tasks !! i = Some (Some (GDict (worker_value w url))).
Proof.
  revert slots. induction tasks as [|[j u] tasks IH]; intros slots Hnd Hin Hlt.
  - by apply elem_of_nil in Hin.
  - rewrite fmap_cons in Hnd. apply NoDup_cons in Hnd as [Hj Hnd].
    rewrite filled_cons.
    apply elem_of_cons in Hin as [[= -> ->]|Hin].
    + rewrite (filled_lookup_other _ _ _ Hj). by apply list_lookup_insert_eq.
    + apply IH; [done..|]. by rewrite length_insert.
Qed.

Lemma numbered_indices (urls : list pystr) k :
  (imap (λ i url, ((k + i)%nat, url)) urls).*1 = seq k (length urls).
Proof.
  revert k. induction urls as [|u urls IH]; intros k; [done|].
  simpl. rewrite Nat.add_0_r. f_equal.
  rewrite <- (IH (S k)). f_equal. apply imap_ext. intros i x _. simpl.
  f_equal. lia.
Qed.

Lemma completion_order_Permutation urls :
  completion_order w urls ≡ₚ imap (λ i url, (i, url)) urls.
Proof. apply merge_sort_Permutation. Qed.

Lemma completion_order_NoDup urls : NoDup (completion_order w urls).*1.
Proof.
  rewrite completion_order_Permutation.
  pose proof (numbered_indices urls 0) as H. simpl in H.
  rewrite H. apply NoDup_seq.
Qed.

Lemma completion_order_elem urls i url :
  urls !! i = Some url → (i, url) ∈ completion_order w urls.
Proof.
  intros H. rewrite completion_order_Permutation.
  apply elem_of_lookup_imap. eauto.
Qed.

(** Whatever the completion order, slot [i] holds the result for url [i]. *)
Lemma filled_completion_order urls :
  filled w (replicate (length urls) None) (completion_order w urls)
  = (λ url, Some (GDict (worker_value w url))) <$> urls.
Proof.
  apply list_eq. intros i. rewrite list_lookup_fmap.
  destruct (urls !! i) as [url|] eqn:Hi; simpl.
  - apply filled_lookup.
    + apply completion_order_NoDup.
    + by apply completion_order_elem.
    + rewrite length_replicate. by eapply lookup_lt_Some.
  - apply lookup_ge_None. rewrite length_filled, length_replicate.
    by apply lookup_ge_None.
Qed.

Lemma omap_id_Some {A B} (f : A → B) (l : list A) :
  omap id ((λ x, Some (f x)) <$> l) = f <$> l.
Proof. induction l as [|x l IH]; [done|]. csimpl. by rewrite IH. Qed.

Lemma gather_result urls s :
  (gather w urls s).1 = Return ((λ url, GDict (worker_value w url)) <$> urls).
Proof.
  unfold gather, mbind, M_bind.
  pose proof (complete_tasks_filled (completion_order w urls)
                (replicate (length urls) None) s) as H.
  destruct (complete_tasks w _ _ s) as [[slots|e] s1]; simpl in H; [|done].
  injection H as ->. simpl.
  rewrite filled_completion_order. by rewrite omap_id_Some.
Qed.

End Gather.

Lemma gather_with_latency w lat urls s :
  (gather (with_latency w lat) urls s).1
  = Return ((λ url, GDict (worker_value w url)) <$> urls).
Proof. by rewrite gather_result. Qed.

(** C3. The list that the fan-out returns has the length of the list of
    urls, and its element at position [i] is the dictionary that the worker
    returns for the url at position [i]; this list is the same for every
    assignment of completion times to the fetches. *)
Theorem gather_is_index_aligned :
  ∀ (w : world) (urls : list pystr) (s : state),
    ∃ articles s',
      gather w urls s = (Return articles, s')
      ∧ length articles = length urls
      ∧ (∀ i url, urls !! i = Some url →
           ∃ d, articles !! i = Some (GDict d) ∧ worker_returns w url d)
      ∧ (∀ lat s0, (gather (with_latency w lat) urls s0).1 = Return articles).
Proof.
  intros w urls s. pose proof (gather_result w urls s) as H.
  destruct (gather w urls s) as [o s'] eqn:Hrun. simpl in H. subst o.
  eexists _, s'. split; [done|]. split; [by rewrite length_fmap|]. split.
  - intros i url Hi. exists (worker_value w url).
    split; [by rewrite list_lookup_fmap, Hi | apply worker_value_returns].
  - intros lat s0. apply gather_with_latency.
Qed.

Lemma gather_is_index_aligned_witness :
  ∃ d, (gather sample_world [py "https://a.example/one"; py "https://b.example/"]
               initial_state).1
       = Return [GDict d;
                 GDict (error_dict (py "https://b.example/") (py "HTTP 500"))]
       ∧ worker_returns sample_world (py "https://a.example/one") d.
Proof.
  destruct (gather_is_index_aligned sample_world
              [py "https://a.example/one"; py "https://b.example/"] initial_state)
    as (articles & s' & Hrun & Hlen & Hidx & _).
  destruct (Hidx 0%nat (py "https://a.example/one") eq_refl) as (d & Hd & Hret).
  exists d. split; [|exact Hret].
  rewrite Hrun. simpl. clear Hidx Hret Hlen.
  vm_compute in Hrun. injection Hrun as <- _.
  simpl in Hd. injection Hd as <-. vm_compute. reflexivity.
Defined.

(** *** Formatting *)

Section Format.

Context (w : world).

Lemma logged_nil s : logged s [] = s.
Proof. destruct s. unfold logged. simpl. by rewrite app_nil_r. Qed.

Lemma logged_logged s evs1 evs2 :
  logged (logged s evs1) evs2 = logged s (evs1 ++ evs2).
Proof. unfold logged. simpl. by rewrite app_assoc. Qed.

(** The worker only appends its events to the log. *)
Lemma worker_state url s :
  (fetch_and_parse_article w url s).2 = logged s (worker_events w url).
Proof.
  unfold worker_events.
  destruct (Article_init w url) as [[]|e] eqn:Hi.
  2:{ rewrite (fetch_and_parse_article_init_raises _ _ _ _ Hi). simpl.
      by rewrite logged_nil. }
  destruct (session_get w url) as [r|e] eqn:Hg.
  2:{ by rewrite (fetch_and_parse_article_get_raises _ _ _ _ Hi Hg). }
  destruct (decide (resp_status r = 200%Z)) as [Hs|Hs].
  2:{ rewrite (fetch_and_parse_article_not_200 _ _ _ _ Hi Hg Hs).
      by rewrite bool_decide_eq_true_2. }
  rewrite bool_decide_eq_false_2 by (intros ?; done).
  destruct (resp_text r) as [html|e] eqn:Ht.
  2:{ by rewrite (fetch_and_parse_article_text_raises _ _ _ _ _ Hi Hg Hs Ht). }
  destruct (article_parse w url html) as [a|e] eqn:Hp.
  - rewrite (fetch_and_parse_article_success _ _ _ _ _ _ Hi Hg Hs Ht Hp).
    unfold after_parse, logged. simpl. by rewrite <- app_assoc.
  - rewrite (fetch_and_parse_article_parse_raises _ _ _ _ _ _ Hi Hg Hs Ht Hp).
    unfold after_parse, logged. simpl. by rewrite <- app_assoc.
Qed.

Lemma worker_events_get url :
  Article_init w url = Return () → EvGet url ∈ worker_events w url.
Proof.
  intros Hi. unfold worker_events. rewrite Hi.
  destruct (session_get w url) as [r|e]; [|apply elem_of_cons; by left].
  destruct (bool_decide _); [apply elem_of_cons; by left|].
  destruct (resp_text r); apply elem_of_cons; by left.
Qed.

Lemma complete_tasks_state tasks slots s :
  (complete_tasks w tasks slots s).2 = logged s (tasks.*2 ≫= worker_events w).
Proof.
  revert slots s. induction tasks as [|[i url] tasks IH]; intros slots s.
  - simpl. by rewrite logged_nil.
  - simpl. unfold mbind at 1, M_bind, complete_task. simpl.
    pose proof (worker_state url s) as Hs.
    destruct (fetch_and_parse_article w url s) as [[d|e] s1]; simpl in Hs; subst s1.
    + rewrite IH. by rewrite logged_logged.
    + rewrite IH. by rewrite logged_logged.
Qed.

Lemma gather_state urls s :
  (gather w urls s).2 = logged s ((completion_order w urls).*2 ≫= worker_events w).
Proof.
  unfold gather, mbind, M_bind.
  pose proof (complete_tasks_state (completion_order w urls)
                (replicate (length urls) None) s) as H.
  by destruct (complete_tasks w _ _ s) as [[slots|e] s1]; simpl in H; subst s1.
Qed.

Lemma completion_order_urls urls : (completion_order w urls).*2 ≡ₚ urls.
Proof.
  rewrite completion_order_Permutation.
  assert (∀ k, (imap (λ i url, ((k + i)%nat, url)) urls).*2 = urls) as H.
  { induction urls as [|u urls IH]; intros k; [done|].
    simpl. f_equal. rewrite <- (IH (S k)) at 2. f_equal.
    apply imap_ext. intros i x _. simpl. f_equal. lia. }
  specialize (H 0%nat). simpl in H. by rewrite H.
Qed.

(** The result of the worker has one of the two shapes. *)
Lemma worker_value_shape url :
  (∃ msg, worker_value w url = error_dict url msg)
  ∨ (∃ title text, worker_value w url = article_dict title text).
Proof.
  destruct (worker_cases w url) as [[e H] | [[status H] | (html & a & H)]].
  - left. eexists. symmetry. apply worker_returns_unique. intros s.
    by apply worker_exception_result.
  - left. eexists. symmetry. apply worker_returns_unique. intros s.
    by rewrite (worker_bad_status_result _ _ _ s H).
  - right. eexists _, _. symmetry. apply worker_returns_unique. intros s.
    by rewrite (worker_extracts_result _ _ _ _ s H).
Qed.

Lemma lines_of_error url d :
  worker_returns w url d → is_Some (d !! "error") → lines_of w url = [].
Proof.
  intros Hd [msg Hmsg]. unfold lines_of.
  rewrite <- (worker_returns_unique _ _ _ Hd). by rewrite Hmsg.
Qed.

Lemma lines_of_article url title text :
  worker_returns w url (article_dict title text) →
  lines_of w url = block title text.
Proof.
  intros Hd. unfold lines_of.
  rewrite <- (worker_returns_unique _ _ _ Hd).
  by rewrite article_dict_no_error, article_dict_title, article_dict_text.
Qed.

Lemma digest_lines_app urls1 urls2 :
  digest_lines w (urls1 ++ urls2) = digest_lines w urls1 ++ digest_lines w urls2.
Proof. unfold digest_lines. apply bind_app. Qed.

Lemma digest_lines_cons url urls :
  digest_lines w (url :: urls) = lines_of w url ++ digest_lines w urls.
Proof. reflexivity. Qed.

Lemma format_loop_gathered urls formatted_results :
  format_loop ((λ url, GDict (worker_value w url)) <$> urls) formatted_results
  = Return (formatted_results ++ digest_lines w urls).
Proof.
  revert formatted_results.
  induction urls as [|url urls IH]; intros acc.
  - simpl. by rewrite app_nil_r.
  - rewrite fmap_cons, digest_lines_cons. simpl. unfold lines_of.
    destruct (worker_value_shape url) as [[msg ->] | (title & text & ->)].
    + rewrite error_dict_has_error. by rewrite IH.
    + rewrite article_dict_no_error. unfold getitem.
      rewrite article_dict_title, article_dict_text. simpl.
      rewrite IH. by rewrite <- app_assoc.
Qed.

Lemma fetch_and_format_result urls s :
  (fetch_and_format w urls s).1 = Return (join newline (digest_lines w urls)).
Proof.
  unfold fetch_and_format, mbind, M_bind.
  pose proof (gather_result w urls s) as H.
  destruct (gather w urls s) as [[articles|e] s1]; simpl in H; [|done].
  injection H as ->. unfold lift. by rewrite format_loop_gathered.
Qed.

Lemma fetch_and_format_state urls s :
  (fetch_and_format w urls s).2
  = logged s ((completion_order w urls).*2 ≫= worker_events w).
Proof.
  unfold fetch_and_format, mbind, M_bind.
  pose proof (gather_result w urls s) as H.
  pose proof (gather_state urls s) as Hs.
  destruct (gather w urls s) as [[articles|e] s1]; simpl in H, Hs; [|done].
  injection H as ->. unfold lift. by rewrite format_loop_gathered.
Qed.

Lemma fetch_and_format_gets urls url s :
  url ∈ urls → Article_init w url = Return () →
  EvGet url ∈ log (fetch_and_format w urls s).2.
Proof.
  intros Hin Hi. rewrite fetch_and_format_state. unfold logged. simpl.
  apply elem_of_app. right. apply list_elem_of_bind. exists url.
  split; [by apply worker_events_get|]. by rewrite completion_order_urls.
Qed.

Lemma join_app sep (parts1 parts2 : list pystr) :
  parts1 ≠ [] → parts2 ≠ [] →
  join sep (parts1 ++ parts2) = join sep parts1 ++ sep ++ join sep parts2.
Proof.
  intros H1 H2. induction parts1 as [|p [|q parts1] IH]; [done| |].
  - destruct parts2 as [|q parts2]; [done|]. reflexivity.
  - change (join sep ((p :: q :: parts1) ++ parts2))
      with (p ++ sep ++ join sep ((q :: parts1) ++ parts2)).
    rewrite IH by done.
    change (join sep (p :: q :: parts1)) with (p ++ sep ++ join sep (q :: parts1)).
    by rewrite <- !app_assoc.
Qed.

(** The join of a part of the lines is a piece of the join of all. *)
Lemma join_infix sep (parts1 mid parts2 : list pystr) :
  mid ≠ [] →
  ∃ pre post, join sep (parts1 ++ mid ++ parts2) = pre ++ join sep mid ++ post.
Proof.
  intros Hmid.
  assert (mid ++ parts2 ≠ []) as Hmid2 by (destruct mid; done).
  destruct parts1 as [|p parts1]; destruct parts2 as [|q parts2].
  - exists [], []. simpl. by rewrite !app_nil_r.
  - exists [], (sep ++ join sep (q :: parts2)).
    change ([] ++ mid ++ q :: parts2) with (mid ++ q :: parts2).
    by rewrite join_app.
  - exists (join sep (p :: parts1) ++ sep), []. rewrite !app_nil_r.
    rewrite join_app by done. by rewrite <- app_assoc.
  - exists (join sep (p :: parts1) ++ sep), (sep ++ join sep (q :: parts2)).
    rewrite join_app by done. rewrite (join_app sep mid) by done.
    by rewrite <- !app_assoc.
Qed.

Lemma join_block title text :
  join newline (block title text)
  = py "Title: " ++ title ++ [10] ++ py "Text: " ++ text ++ [10] ++ py "-----".
Proof. vm_compute. reflexivity. Qed.

End Format.

(** C7. When the worker of one url returns a dictionary with an error, the
    requests of the other urls are still made, the title and the text of
    every other url whose worker succeeds are in the digest, as the lines
    "Title: <title>", "Text: <text>" and "-----", and the digest is the one
    that the list without the failed url gives: neither that url nor its
    error message has any part in it. *)
Theorem failure_isolation :
  ∀ (w : world) (before after : list pystr) (failed : pystr) (d : dict) (s : state),
    worker_returns w failed d →
    is_Some (d !! "error") →
    ∃ digest s',
      fetch_and_format w (before ++ failed :: after) s = (Return digest, s')
      ∧ (∀ url, url ∈ before ++ after → Article_init w url = Return () →
           EvGet url ∈ log s')
      ∧ (∀ url title text,
           url ∈ before ++ after →
           worker_returns w url {[ "title" := title; "text" := text ]} →
           ∃ pre post,
             digest = pre ++ (py "Title: " ++ title ++ [10]
                              ++ py "Text: " ++ text ++ [10]
                              ++ py "-----") ++ post)
      ∧ (∀ s0, (fetch_and_format w (before ++ after) s0).1 = Return digest).
Proof.
  intros w before after failed d s Hd Herr.
  pose proof (fetch_and_format_result w (before ++ failed :: after) s) as Hres.
  pose proof (λ url, fetch_and_format_gets w (before ++ failed :: after) url s)
    as Hgets.
  destruct (fetch_and_format w (before ++ failed :: after) s) as [o s'].
  simpl in Hres. subst o.
  assert (digest_lines w (before ++ failed :: after)
          = digest_lines w (before ++ after)) as Hsame.
  { rewrite !digest_lines_app, digest_lines_cons.
    by rewrite (lines_of_error _ _ _ Hd Herr). }
  exists (join newline (digest_lines w (before ++ after))), s'.
  split; [by rewrite Hsame|]. split; [|split].
  - intros url Hin Hi. simpl in Hgets. apply Hgets; [|done].
    apply elem_of_app in Hin as [Hin|Hin]; apply elem_of_app; [by left|].
    right. by apply elem_of_cons; right.
  - intros url title text Hin Hok.
    apply list_elem_of_split in Hin as (l1 & l2 & ->).
    rewrite digest_lines_app, digest_lines_cons.
    rewrite (lines_of_article _ _ _ _ Hok).
    destruct (join_infix newline (digest_lines w l1) (block title text)
                (digest_lines w l2)) as (pre & post & Heq); [done|].
    exists pre, post. by rewrite Heq, join_block.
  - intros s0. apply fetch_and_format_result.
Qed.

Lemma failure_isolation_witness :
  ∃ digest pre post,
    (fetch_and_format sample_world
       [py "https://a.example/one"; py "https://b.example/"; py "https://d.example"]
       initial_state).1 = Return digest
    ∧ digest = pre ++ (py "Title: Caf  1" ++ [10]
                       ++ py "Text: <html>D</html>" ++ [10] ++ py "-----") ++ post
    ∧ (fetch_and_format sample_world
         [py "https://a.example/one"; py "https://d.example"]
         initial_state).1 = Return digest.
Proof.
  destruct (failure_isolation sample_world
              [py "https://a.example/one"] [py "https://d.example"]
              (py "https://b.example/")
              {[ "url" := py "https://b.example/"; "error" := py "HTTP 500" ]}
              initial_state)
    as (digest & s' & Hrun & _ & Hblock & Hsame).
  - intros s. vm_compute. reflexivity.
  - exists (py "HTTP 500"). vm_compute. reflexivity.
  - destruct (Hblock (py "https://d.example") (py "Caf  1") (py "<html>D</html>"))
      as (pre & post & Heq).
    + apply elem_of_cons. right. apply elem_of_cons. by left.
    + intros s. vm_compute. reflexivity.
    + exists digest, pre, post.
      split; [exact (f_equal fst Hrun)|]. split; [exact Heq | apply Hsame].
Defined.

(** *** Retrying *)

Section Retry.

Context (w : world) (keyword : pystr) (max_retries : Z) (initial_delay : Z).

Lemma attempt_body_raises s e :
  ddgs_atext w (calls s) keyword 15 = Raise e →
  attempt_body w keyword s = (Raise e, searched keyword s).
Proof.
  intros H. unfold attempt_body, mbind, M_bind, atext. by rewrite H.
Qed.

Lemma attempt_body_empty s :
  ddgs_atext w (calls s) keyword 15 = Return [] →
  attempt_body w keyword s = (Return [], searched keyword s).
Proof.
  intros H. unfold attempt_body, mbind, M_bind, atext. by rewrite H.
Qed.

Lemma backoff_delay_fits attempt jitter :
  fits initial_delay attempt →
  backoff_delay initial_delay attempt jitter
  = Return (backoff_wait initial_delay attempt jitter).
Proof.
  unfold fits, backoff_delay, float_of_int, backoff_wait. by intros ->.
Qed.

Lemma backoff_delay_overflows attempt jitter :
  ¬ fits initial_delay attempt →
  backoff_delay initial_delay attempt jitter = Raise OverflowError.
Proof.
  unfold fits, backoff_delay, float_of_int.
  by destruct (is_infinity _).
Qed.

(** A failed attempt that is not the last one: wait, then go on. *)
Lemma retry_loop_backoff attempt rest s e :
  ddgs_atext w (calls s) keyword 15 = Raise e →
  is_provider_error e = true →
  Z.of_nat attempt ≠ (max_retries - 1)%Z →
  fits initial_delay attempt →
  retry_loop w keyword max_retries initial_delay (attempt :: rest) s
  = retry_loop w keyword max_retries initial_delay rest
      (after_failures w keyword initial_delay attempt 1 s).
Proof.
  intros Hraise Hprov Hlast Hfits. simpl.
  unfold mbind at 1, M_bind, try_except, fmap, M_fmap.
  rewrite (attempt_body_raises _ _ Hraise), Hprov.
  rewrite bool_decide_eq_false_2 by done.
  unfold mbind, M_bind, uniform01, lift.
  rewrite (backoff_delay_fits _ _ Hfits).
  unfold after_failures, searched, sleep, emit.
  simpl. rewrite !Nat.add_1_r. by rewrite <- app_assoc.
Qed.

(** A failed last attempt: the error goes to the caller. *)
Lemma retry_loop_exhausted attempt rest s e :
  ddgs_atext w (calls s) keyword 15 = Raise e →
  is_provider_error e = true →
  Z.of_nat attempt = (max_retries - 1)%Z →
  retry_loop w keyword max_retries initial_delay (attempt :: rest) s
  = (Raise e, searched keyword s).
Proof.
  intros Hraise Hprov Hlast. simpl.
  unfold mbind at 1, M_bind, try_except, fmap, M_fmap.
  rewrite (attempt_body_raises _ _ Hraise), Hprov.
  by rewrite bool_decide_eq_true_2.
Qed.

(** Another exception, wherever the attempt raises it: it goes to the
    caller at once. *)
Lemma retry_loop_other_exception attempt rest s s1 e :
  attempt_body w keyword s = (Raise e, s1) →
  is_provider_error e = false →
  retry_loop w keyword max_retries initial_delay (attempt :: rest) s
  = (Raise e, s1).
Proof.
  intros Hraise Hprov. simpl.
  unfold mbind at 1, M_bind, try_except, fmap, M_fmap.
  by rewrite Hraise, Hprov.
Qed.

(** No result: the empty digest is returned. *)
Lemma retry_loop_empty attempt rest s :
  ddgs_atext w (calls s) keyword 15 = Return [] →
  retry_loop w keyword max_retries initial_delay (attempt :: rest) s
  = (Return (Some []), searched keyword s).
Proof.
  intros Hempty. simpl.
  unfold mbind at 1, M_bind, try_except, fmap, M_fmap.
  by rewrite (attempt_body_empty _ Hempty).
Qed.

Lemma after_failures_S attempt m s :
  after_failures w keyword initial_delay (S attempt) m
    (after_failures w keyword initial_delay attempt 1 s)
  = after_failures w keyword initial_delay attempt (S m) s.
Proof.
  unfold after_failures. simpl. rewrite <- !app_assoc. simpl.
  rewrite !Nat.add_1_r. f_equal; lia.
Qed.

(** [m] failed attempts, none of them the last, each with a wait. *)
Lemma retry_loop_failures m attempt rest s :
  (Z.of_nat (attempt + m) < max_retries)%Z →
  (∀ k, (k < m)%nat → fits initial_delay (attempt + k)) →
  provider_fails w keyword s m →
  retry_loop w keyword max_retries initial_delay (seq attempt m ++ rest) s
  = retry_loop w keyword max_retries initial_delay rest
      (after_failures w keyword initial_delay attempt m s).
Proof.
  revert attempt s. induction m as [|m IH]; intros attempt s Hlt Hfits Hfail.
  - simpl. f_equal. unfold after_failures. simpl.
    destruct s. simpl. by rewrite !Nat.add_0_r, app_nil_r.
  - destruct (Hfail 0%nat) as (e & He & Hp); [lia|].
    rewrite Nat.add_0_r in He. simpl seq. simpl app.
    pose proof (Hfits 0%nat) as Hfit0. rewrite Nat.add_0_r in Hfit0.
    rewrite (retry_loop_backoff _ _ _ _ He Hp) by (lia || (apply Hfit0; lia)).
    rewrite IH.
    + by rewrite after_failures_S.
    + lia.
    + intros k Hk. replace (S attempt + k)%nat with (attempt + S k)%nat by lia.
      apply Hfits. lia.
    + intros k Hk. destruct (Hfail (S k)) as (e' & He' & Hp'); [lia|].
      exists e'. split; [|done]. simpl.
      by replace (calls s + 1 + k)%nat with (calls s + S k)%nat by lia.
Qed.

Lemma backoff_events_no_get attempt m draw url :
  EvGet url ∉ backoff_events w keyword initial_delay attempt m draw.
Proof.
  revert attempt draw. induction m as [|m IH]; intros attempt draw; simpl.
  - apply not_elem_of_nil.
  - intros H. apply elem_of_cons in H as [H|H]; [done|].
    apply elem_of_cons in H as [H|H]; [done|]. by apply IH in H.
Qed.

End Retry.

(** With the default initial delay the products of the four waits are in
    range. *)
Lemma default_delays_fit (attempt : nat) : (attempt < 4)%nat → fits 1 attempt.
Proof.
  intros H. destruct attempt as [|[|[|[|attempt]]]]; [reflexivity..|lia].
Qed.

Lemma seq_split_at (k n : nat) :
  (k < n)%nat → seq 0 n = seq 0 k ++ k :: seq (S k) (n - S k).
Proof.
  intros Hk. replace n with (k + S (n - S k))%nat at 1 by lia.
  by rewrite seq_app.
Qed.

(** After [k] failed attempts with waits, attempt [k] is made in the state
    [after_failures ... 0 k s]. *)
Lemma get_material_failures w keyword (max_retries : Z) initial_delay k s :
  (Z.of_nat k < max_retries)%Z →
  (∀ a, (a < k)%nat → fits initial_delay a) →
  provider_fails w keyword s k →
  get_material w keyword max_retries initial_delay s
  = retry_loop w keyword max_retries initial_delay
      (k :: seq (S k) (Z.to_nat max_retries - S k))
      (after_failures w keyword initial_delay 0 k s).
Proof.
  intros Hk Hfits Hfail. unfold get_material.
  rewrite (seq_split_at k (Z.to_nat max_retries)) by lia.
  apply retry_loop_failures; [simpl; lia | done | done].
Qed.

(** The same with the default arguments. *)
Lemma get_material_failures_default w keyword k s :
  (k < 5)%nat →
  provider_fails w keyword s k →
  get_material w keyword 5 1 s
  = retry_loop w keyword 5 1 (k :: seq (S k) (5 - S k))
      (after_failures w keyword 1 0 k s).
Proof.
  intros Hk Hfail.
  rewrite (get_material_failures w keyword 5 1 k s); [done | lia | | done].
  intros a Ha. apply default_delays_fit. lia.
Qed.

(** With a provider that refuses every call there are four waits, of 1.5,
    2.5, 4.5 and 8.5 seconds, and none of 16 seconds or more: the fifth
    refusal is raised at once. *)
Lemma no_wait_after_last_attempt :
  provider_fails ratelimited_world (py "rust") initial_state 5
  ∧ (get_material ratelimited_world (py "rust") 5 1 initial_state).1
    = Raise (Exn RatelimitException (py "ratelimit 4"))
  ∧ sleeps (log (get_material ratelimited_world (py "rust") 5 1 initial_state).2)
    = [1.5; 2.5; 4.5; 8.5]%float
  ∧ ¬ ∃ delay,
        delay ∈ sleeps (log (get_material ratelimited_world (py "rust") 5 1
                                          initial_state).2)
        ∧ (16 <=? delay)%float = true.
Proof.
  split; [|split; [|split]].
  - intros k Hk. eexists. split; reflexivity.
  - vm_compute. reflexivity.
  - vm_compute. reflexivity.
  - intros (delay & Hin & Hle).
    assert (sleeps (log (get_material ratelimited_world (py "rust") 5 1
                                      initial_state).2)
            = [1.5; 2.5; 4.5; 8.5]%float) as Heq
      by (vm_compute; reflexivity).
    rewrite Heq in Hin.
    repeat (apply elem_of_cons in Hin as [->|Hin];
            [vm_compute in Hle; discriminate Hle|]).
    by apply elem_of_nil in Hin.
Qed.

(** The sum is made in binary64: with the largest draw below 1 the first
    wait is 2 seconds. *)
Example backoff_delay_rounds :
  backoff_delay 1 0 0x1.fffffffffffffp-1 = Return 2%float.
Proof. vm_compute. reflexivity. Qed.

(** The product must be in the range of binary64. *)
Example backoff_delay_overflow :
  backoff_delay 1 1024 0.5 = Raise OverflowError.
Proof. vm_compute. reflexivity. Qed.

(** C2 (amended). When every call of the provider raises a rate-limit or
    provider error, five calls are made, with a wait after the attempts 0,
    1, 2 and 3 of [1 * 2^attempt] seconds plus the draw of
    [random.uniform(0, 1)], added in binary64: waits of 1, 2, 4 and 8
    seconds plus jitter; no wait follows the fifth failure, whose error is
    raised to the caller.  An exception of another kind, raised by the
    provider or by anything else in the attempt, is raised to the caller at
    once, in the state in which it was raised: no wait and no further call. *)
Theorem get_material_retries :
  ∀ (w : world) (keyword : pystr) (s : state),
    (provider_fails w keyword s 5 →
       ∃ e,
         ddgs_atext w (calls s + 4) keyword 15 = Raise e
         ∧ get_material w keyword 5 1 s
           = (Raise e,
              State (calls s + 5) (draws s + 4)
                (log s ++
                 [EvSearch keyword 15;
                  EvSleep (1 + random_uniform w (draws s))%float;
                  EvSearch keyword 15;
                  EvSleep (2 + random_uniform w (S (draws s)))%float;
                  EvSearch keyword 15;
                  EvSleep (4 + random_uniform w (S (S (draws s))))%float;
                  EvSearch keyword 15;
                  EvSleep (8 + random_uniform w (S (S (S (draws s)))))%float;
                  EvSearch keyword 15])))
    ∧ (∀ (k : nat) (e : exn) (s1 : state),
         (k < 5)%nat →
         provider_fails w keyword s k →
         attempt_body w keyword (after_failures w keyword 1 0 k s) = (Raise e, s1) →
         is_provider_error e = false →
         get_material w keyword 5 1 s = (Raise e, s1))
    ∧ (∀ (k : nat) (e : exn),
         (k < 5)%nat →
         provider_fails w keyword s k →
         ddgs_atext w (calls s + k) keyword 15 = Raise e →
         is_provider_error e = false →
         get_material w keyword 5 1 s
         = (Raise e,
            State (calls s + k + 1) (draws s + k)
              (log s ++ backoff_events w keyword 1 0 k (draws s)
                     ++ [EvSearch keyword 15]))).
Proof.
  intros w keyword s. split; [|split].
  - intros Hfail. destruct (Hfail 4%nat) as (e & He & Hp); [lia|].
    exists e. split; [done|].
    rewrite (get_material_failures_default w keyword 4 s) by
      (lia || (intros k Hk; apply Hfail; lia)).
    rewrite (retry_loop_exhausted _ _ _ _ _ _ _ e); [|done..].
    unfold searched, after_failures. simpl.
    rewrite Nat.add_succ_r. f_equal. f_equal; [lia|].
    rewrite <- app_assoc. reflexivity.
  - intros k e s1 Hk Hfail He Hp.
    rewrite (get_material_failures_default w keyword k s Hk Hfail).
    by apply retry_loop_other_exception.
  - intros k e Hk Hfail He Hp.
    rewrite (get_material_failures_default w keyword k s Hk Hfail).
    rewrite (retry_loop_other_exception _ _ _ _ _ _ _ _ e
               (attempt_body_raises w keyword
                  (after_failures w keyword 1 0 k s) e He) Hp).
    unfold searched, after_failures. simpl.
    f_equal. f_equal; [lia|]. by rewrite <- app_assoc.
Qed.

Lemma get_material_retries_witness :
  (∃ e, get_material ratelimited_world (py "rust") 5 1 initial_state
        = (Raise e,
           State 5 4
             [EvSearch (py "rust") 15; EvSleep 1.5;
              EvSearch (py "rust") 15; EvSleep 2.5;
              EvSearch (py "rust") 15; EvSleep 4.5;
              EvSearch (py "rust") 15; EvSleep 8.5;
              EvSearch (py "rust") 15]))
  ∧ (get_material broken_world (py "rust") 5 1 initial_state).1
    = Raise (Exn OtherException (py "connection reset"))
  ∧ (get_material bad_url_world (py "rust") 5 1 initial_state).1
    = Raise (Exn OtherException (py "Invalid IPv6 URL")).
Proof.
  destruct (get_material_retries ratelimited_world (py "rust") initial_state)
    as (Hall & _).
  destruct (get_material_retries broken_world (py "rust") initial_state)
    as (_ & _ & Hother).
  destruct (get_material_retries bad_url_world (py "rust") initial_state)
    as (_ & Hany & _).
  split; [|split].
  - destruct Hall as (e & _ & Hrun).
    + intros k Hk. eexists. split; reflexivity.
    + exists e. exact Hrun.
  - rewrite (Hother 2%nat (Exn OtherException (py "connection reset"))).
    + reflexivity.
    + lia.
    + intros k Hk. exists (Exn DuckDuckGoSearchException (py "try again")).
      split; [|reflexivity].
      destruct k as [|[|k]]; [reflexivity | reflexivity | lia].
    + reflexivity.
    + reflexivity.
  - rewrite (Hany 0%nat (Exn OtherException (py "Invalid IPv6 URL"))
                  (searched (py "rust") initial_state)).
    + reflexivity.
    + lia.
    + intros k Hk. lia.
    + vm_compute. reflexivity.
    + reflexivity.
Defined.

(** C9. When the provider returns no result, at the first call or after
    calls that raised provider errors and were retried, the endpoint answers
    200 with the body [{"results": ""}], and no article is requested. *)
Theorem search_without_results :
  ∀ (w : world) (keyword : pystr) (s : state) (k : nat),
    (k < 5)%nat →
    provider_fails w keyword s k →
    ddgs_atext w (calls s + k) keyword 15 = Return [] →
    ∃ s' evs,
      search w keyword s = (HttpResponse 200 {[ "results" := JStr [] ]}, s')
      ∧ log s' = log s ++ evs
      ∧ ∀ url, EvGet url ∉ evs.
Proof.
  intros w keyword s k Hk Hfail Hempty. unfold search.
  rewrite (get_material_failures_default w keyword k s Hk Hfail).
  rewrite retry_loop_empty by done.
  eexists _, (backoff_events w keyword 1 0 k (draws s) ++ [EvSearch keyword 15]).
  split; [reflexivity|]. split.
  - simpl. by rewrite <- app_assoc.
  - intros url Hin. apply elem_of_app in Hin as [Hin|Hin].
    + by apply backoff_events_no_get in Hin.
    + apply elem_of_cons in Hin as [Hin|Hin]; [done|]. by apply elem_of_nil in Hin.
Qed.

Lemma search_without_results_witness :
  ∃ s', search empty_world (py "rust") initial_state
        = (HttpResponse 200 {[ "results" := JStr [] ]}, s')
        ∧ log s' = [EvSearch (py "rust") 15].
Proof.
  destruct (search_without_results empty_world (py "rust") initial_state 0)
    as (s' & evs & Hrun & Hlog & _).
  - lia.
  - intros k Hk. lia.
  - reflexivity.
  - exists s'. split; [exact Hrun|].
    vm_compute in Hrun. injection Hrun as <-. reflexivity.
Defined.

(** * Further properties *)

(** ** [clean_text] *)

Section CleanTextMore.

Lemma lstrip_nil (s : pystr) :
  lstrip s = [] ↔ Forall (λ c, isspace c = true) s.
Proof.
  induction s as [|c s IH]; simpl.
  - split; [constructor | done].
  - destruct (isspace c) eqn:Hc.
    + rewrite IH. split; [by constructor | by inversion 1].
    + split; [done | inversion 1; congruence].
Qed.

Lemma strip_nil (s : pystr) :
  strip s = [] ↔ Forall (λ c, isspace c = true) s.
Proof.
  split.
  - intros H. destruct (strip_split s) as (pre & post & Heq & Hpre & Hpost).
    rewrite Heq, H. apply Forall_app. split; [done|]. by apply Forall_app.
  - intros H. apply lstrip_nil in H. unfold strip. by rewrite H.
Qed.

Lemma isspace_ascii_or_space (c : pychar) :
  isspace (ascii_or_space c) = true ↔ blank c.
Proof.
  unfold ascii_or_space, blank, ord.
  destruct (c <? 128) eqn:Hc.
  - apply N.ltb_lt in Hc. split; [by left | intros [H|H]; [done | lia]].
  - apply N.ltb_ge in Hc. split; [by right | done].
Qed.

Lemma filter_visible_spaces (s : pystr) :
  Forall (λ c, isspace c = true) s → filter visible s = [].
Proof.
  induction 1 as [|c s Hc _ IH]; [done|].
  rewrite filter_cons_False; [done|]. intros [_ H]. congruence.
Qed.

Lemma filter_visible_strip (s : pystr) :
  filter visible (strip s) = filter visible s.
Proof.
  destruct (strip_split s) as (pre & post & Heq & Hpre & Hpost).
  rewrite Heq at 2. rewrite !filter_app.
  rewrite (filter_visible_spaces _ Hpre), (filter_visible_spaces _ Hpost).
  by rewrite app_nil_r.
Qed.

Lemma filter_visible_ascii_or_space (s : pystr) :
  filter visible (ascii_or_space <$> s) = filter visible s.
Proof.
  induction s as [|c s IH]; [done|]. rewrite fmap_cons.
  unfold ascii_or_space at 1, ord.
  destruct (c <? 128) eqn:Hc.
  - destruct (decide (visible c)) as [Hv|Hv].
    + by rewrite !filter_cons_True, IH.
    + by rewrite !filter_cons_False, IH.
  - apply N.ltb_ge in Hc.
    rewrite filter_cons_False by (intros [_ H]; done).
    rewrite filter_cons_False by (intros [H _]; unfold ord in H; lia).
    done.
Qed.

Lemma length_strip (s : pystr) : (length (strip s) ≤ length s)%nat.
Proof.
  destruct (strip_split s) as (pre & post & Heq & _).
  rewrite Heq at 2. rewrite !length_app. lia.
Qed.

Lemma length_clean_text (s : pystr) : (length (clean_text (Some s)) ≤ length s)%nat.
Proof.
  rewrite clean_text_unfold.
  etrans; [apply length_strip|]. by rewrite length_fmap.
Qed.

End CleanTextMore.

(** X1. The strings that cleaning leaves unchanged are exactly the ASCII
    strings without whitespace at either end. *)
Theorem clean_text_fixed_points :
  ∀ s : pystr,
    clean_text (Some s) = s
    ↔ Forall (λ c, ord c < 128) s ∧ not_space (head s) ∧ not_space (last s).
Proof.
  intros s. split.
  - intros H. rewrite <- H.
    split; [apply clean_text_is_ascii|].
    split; [apply clean_text_head | apply clean_text_last].
  - intros (Hascii & Hhead & Hlast).
    rewrite clean_text_unfold, (fmap_ascii_or_space_id _ Hascii).
    by apply strip_id.
Qed.

(** X2. Cleaning gives the empty string exactly when the input has no
    visible character: every character of it is whitespace or not ASCII. *)
Theorem clean_text_empty_iff :
  ∀ s : pystr, clean_text (Some s) = [] ↔ Forall blank s.
Proof.
  intros s. rewrite clean_text_unfold, strip_nil, Forall_fmap.
  apply Forall_iff. intros c. apply isspace_ascii_or_space.
Qed.

(** X3. Cleaning neither drops, adds nor reorders a visible character: the
    ASCII non-whitespace characters of the result are those of the input,
    in the same order. *)
Theorem clean_text_keeps_visible :
  ∀ s : pystr, filter visible (clean_text (Some s)) = filter visible s.
Proof.
  intros s. rewrite clean_text_unfold, filter_visible_strip.
  apply filter_visible_ascii_or_space.
Qed.

(** ** The worker *)

Section WorkerMore.

Context (w : world).

(** What the worker returns is the one or the other dictionary. *)
Lemma worker_result_shape url s s' d :
  fetch_and_parse_article w url s = (Return d, s') →
  (∃ msg, d = error_dict url msg)
  ∨ (∃ html a,
       worker_extracts w url html a
       ∧ d = article_dict (clean_text (Some (art_title a)))
                          (clean_text (Some (take (N.to_nat 10000) (art_text a))))).
Proof.
  intros Hrun.
  destruct (worker_cases w url) as [[e He] | [[status Hb] | (html & a & H)]].
  - left. exists (str_of_exn e).
    pose proof (worker_exception_result w _ _ s He) as Hr.
    rewrite Hrun in Hr. simpl in Hr. congruence.
  - left. exists (py "HTTP " ++ str_of_int status).
    rewrite (worker_bad_status_result w _ _ s Hb) in Hrun. congruence.
  - right. exists html, a. split; [done|].
    rewrite (worker_extracts_result w _ _ _ s H) in Hrun. congruence.
Qed.

Lemma error_dict_dom url msg :
  dom (error_dict url msg) = ({[ "url"; "error" ]} : gset string).
Proof. unfold error_dict. by rewrite dom_insert_L, dom_singleton_L. Qed.

Lemma article_dict_dom title text :
  dom (article_dict title text) = ({[ "title"; "text" ]} : gset string).
Proof. unfold article_dict. by rewrite dom_insert_L, dom_singleton_L. Qed.

End WorkerMore.

(** X4. In a result of the worker the text has at most 10000 characters and
    no more than the extracted text, and the title has no more characters
    than the extracted title. *)
Theorem extract_lengths_bounded :
  ∀ (w : world) (url : pystr) (s s' : state) (d : dict) (title text : pystr),
    fetch_and_parse_article w url s = (Return d, s') →
    d !! "title" = Some title →
    d !! "text" = Some text →
    ∃ html a,
      worker_extracts w url html a
      ∧ (length text ≤ N.to_nat 10000)%nat
      ∧ (length text ≤ length (art_text a))%nat
      ∧ (length title ≤ length (art_title a))%nat.
Proof.
  intros w url s s' d title text Hrun Htitle Htext.
  destruct (worker_result_shape w url s s' d Hrun)
    as [[msg ->] | (html & a & H & ->)]; [done|].
  exists html, a. split; [done|].
  rewrite article_dict_title in Htitle. apply (inj Some) in Htitle. subst title.
  rewrite article_dict_text in Htext. apply (inj Some) in Htext. subst text.
  pose proof (length_clean_text (take (N.to_nat 10000) (art_text a))) as Hlen.
  rewrite length_take in Hlen.
  split; [lia|]. split; [lia|]. apply length_clean_text.
Qed.

Lemma extract_lengths_bounded_witness :
  (length (py "<html>A</html>") ≤ N.to_nat 10000)%nat.
Proof.
  destruct (extract_lengths_bounded
              sample_world (py "https://a.example/one") initial_state
              (after_parse (py "https://a.example/one") (py "<html>A</html>")
                           initial_state)
              (article_dict (py "Caf  1") (py "<html>A</html>"))
              (py "Caf  1") (py "<html>A</html>"))
    as (html & a & _ & Hlen & _).
  - vm_compute. reflexivity.
  - vm_compute. reflexivity.
  - vm_compute. reflexivity.
  - exact Hlen.
Defined.

(** X5. The worker leaves the counters of provider calls and of random
    draws alone and adds at most two events to the log: nothing when the
    article object cannot be built, else one request of its own url,
    followed by one extraction only when the answer has status 200 and its
    body [html] could be read, and then it is [html] that is extracted. *)
Theorem worker_footprint :
  ∀ (w : world) (url : pystr) (s : state),
    calls (fetch_and_parse_article w url s).2 = calls s
    ∧ draws (fetch_and_parse_article w url s).2 = draws s
    ∧ ((log (fetch_and_parse_article w url s).2 = log s
        ∧ ∃ e, Article_init w url = Raise e)
       ∨ (log (fetch_and_parse_article w url s).2 = log s ++ [EvGet url]
          ∧ ¬ ∃ r html, session_get w url = Return r
                        ∧ resp_status r = 200%Z ∧ resp_text r = Return html)
       ∨ (∃ r html,
            session_get w url = Return r
            ∧ resp_status r = 200%Z
            ∧ resp_text r = Return html
            ∧ log (fetch_and_parse_article w url s).2
              = log s ++ [EvGet url; EvParse url html])).
Proof.
  intros w url s. rewrite worker_state. unfold logged, worker_events. simpl.
  split; [done|]. split; [done|].
  destruct (Article_init w url) as [[]|e] eqn:Hi.
  2:{ left. rewrite app_nil_r. eauto. }
  right.
  destruct (session_get w url) as [r|e] eqn:Hg.
  2:{ left. split; [done|]. by intros (r & html & ? & _). }
  destruct (decide (resp_status r = 200%Z)) as [Hs|Hs].
  2:{ rewrite bool_decide_eq_true_2 by done. left. split; [done|].
      intros (r' & html & [= <-] & ? & _). done. }
  rewrite bool_decide_eq_false_2 by (intros ?; done).
  destruct (resp_text r) as [html|e] eqn:Ht.
  2:{ left. split; [done|].
      intros (r' & html & [= <-] & _ & Ht'). congruence. }
  right. exists r, html. done.
Qed.

(** X6. The dictionary that the worker returns has exactly the keys "url"
    and "error", with the url of the worker under "url", or exactly the keys
    "title" and "text". *)
Theorem worker_result_keys :
  ∀ (w : world) (url : pystr) (s s' : state) (d : dict),
    fetch_and_parse_article w url s = (Return d, s') →
    (dom d = {[ "url"; "error" ]} ∧ d !! "url" = Some url)
    ∨ dom d = {[ "title"; "text" ]}.
Proof.
  intros w url s s' d Hrun.
  destruct (worker_result_shape w url s s' d Hrun)
    as [[msg ->] | (html & a & _ & ->)].
  - left. split; [apply error_dict_dom | done].
  - right. apply article_dict_dom.
Qed.

Lemma worker_result_keys_witness :
  dom (error_dict (py "https://b.example/") (py "HTTP 500"))
  = ({[ "url"; "error" ]} : gset string).
Proof.
  destruct (worker_result_keys
              sample_world (py "https://b.example/") initial_state
              (after_get (py "https://b.example/") initial_state)
              (error_dict (py "https://b.example/") (py "HTTP 500")))
    as [[Hdom _] | Hdom].
  - vm_compute. reflexivity.
  - exact Hdom.
  - exfalso. apply (f_equal (λ X : gset string, bool_decide ("url" ∈ X))) in Hdom.
    vm_compute in Hdom. discriminate Hdom.
Defined.

(** ** De-duplication *)

Lemma length_omap_le {A B} (f : A → option B) (l : list A) :
  (length (omap f l) ≤ length l)%nat.
Proof.
  induction l as [|x l IH]; [done|]. csimpl.
  destruct (f x); simpl; lia.
Qed.

Section DedupeMore.

Context (w : world).

Lemma first_refused_cons_raise url cands e e' :
  urlparse_netloc w url = Raise e' →
  first_refused w (url :: cands) e ↔ e = e'.
Proof.
  intros Hn. split.
  - intros ([|k] & u & Hlook & Hu & Hbefore); simpl in Hlook.
    + injection Hlook as <-. congruence.
    + destruct (Hbefore 0%nat url) as [d Hd]; [lia | done | congruence].
  - intros ->. exists 0%nat, url. split; [done|]. split; [done|].
    intros j v Hj. lia.
Qed.

Lemma first_refused_cons_return url domain cands e :
  urlparse_netloc w url = Return domain →
  first_refused w (url :: cands) e ↔ first_refused w cands e.
Proof.
  intros Hn. split.
  - intros ([|k] & u & Hlook & Hu & Hbefore); simpl in Hlook.
    + injection Hlook as <-. congruence.
    + exists k, u. split; [done|]. split; [done|].
      intros j v Hj Hv. apply (Hbefore (S j) v); [lia | done].
  - intros (k & u & Hlook & Hu & Hbefore).
    exists (S k), u. split; [done|]. split; [done|].
    intros [|j] v Hj Hv; simpl in Hv.
    + injection Hv as <-. eauto.
    + apply (Hbefore j v); [lia | done].
Qed.

Lemma dedupe_loop_raises results urls seen e :
  dedupe_loop w results urls seen = Raise e
  ↔ first_refused w (candidates results) e.
Proof.
  revert urls seen. induction results as [|r results IH]; intros urls seen.
  - simpl. split; [done|]. by intros (k & u & Hlook & _).
  - unfold candidates. simpl omap. destruct (url_of r) as [url|] eqn:Hr.
    + rewrite (dedupe_loop_cons_url _ _ _ _ _ _ Hr).
      destruct (urlparse_netloc w url) as [domain|e'] eqn:Hn.
      * rewrite (first_refused_cons_return _ _ _ _ Hn).
        destruct (decide (domain ∈ seen)); apply IH.
      * rewrite (first_refused_cons_raise _ _ _ _ Hn).
        split; congruence.
    + rewrite (dedupe_loop_cons_skip _ _ _ _ _ Hr). apply IH.
Qed.

(** What is kept of a first part of the results stays in front. *)
Lemma dedupe_loop_app results1 results2 urls seen out :
  dedupe_loop w (results1 ++ results2) urls seen = Return out →
  ∃ mid, dedupe_loop w results1 urls seen = Return mid ∧ mid `prefix_of` out.
Proof.
  revert urls seen. induction results1 as [|r results1 IH]; intros urls seen.
  - simpl. intros Hrun. exists urls. split; [done|].
    apply dedupe_loop_kept in Hrun as (new & -> & _). by exists new.
  - rewrite <- app_comm_cons. destruct (url_of r) as [url|] eqn:Hr.
    + rewrite !(dedupe_loop_cons_url _ _ _ _ _ _ Hr).
      destruct (urlparse_netloc w url) as [domain|e']; [|done].
      destruct (decide (domain ∈ seen)); apply IH.
    + rewrite !(dedupe_loop_cons_skip _ _ _ _ _ Hr). apply IH.
Qed.

Lemma hosts_cons_return url domain cands :
  urlparse_netloc w url = Return domain →
  hosts w (url :: cands) = domain :: hosts w cands.
Proof. intros Hn. unfold hosts. simpl. by rewrite Hn. Qed.

Lemma gset_difference_skip (x : pystr) (X seen : gset pystr) :
  x ∈ seen → ({[x]} ∪ X) ∖ seen = X ∖ seen.
Proof.
  intros Hx. apply set_eq. intros y.
  rewrite !elem_of_difference, elem_of_union, elem_of_singleton.
  intuition congruence.
Qed.

Lemma gset_difference_take (x : pystr) (X seen : gset pystr) :
  x ∉ seen → ({[x]} ∪ X) ∖ seen = {[x]} ∪ X ∖ (seen ∪ {[x]}).
Proof.
  intros Hx. apply set_eq. intros y.
  rewrite !elem_of_union, !elem_of_difference, !elem_of_union, !elem_of_singleton.
  destruct (decide (y = x)) as [->|Hne]; intuition congruence.
Qed.

Lemma gset_difference_disjoint (x : pystr) (X seen : gset pystr) :
  ({[x]} : gset pystr) ## X ∖ (seen ∪ {[x]}).
Proof.
  apply elem_of_disjoint. intros y Hy.
  rewrite elem_of_difference, elem_of_union. tauto.
Qed.

Lemma kept_size seen cands new :
  kept w seen cands new →
  length new = size ((list_to_set (hosts w cands) : gset pystr) ∖ seen).
Proof.
  induction 1 as [seen|seen u d cands new Hn Hin Hk IH|seen u d cands new Hn Hnin Hk IH].
  - simpl. by rewrite difference_disjoint_L, size_empty.
  - rewrite (hosts_cons_return _ _ _ Hn). simpl.
    by rewrite gset_difference_skip.
  - rewrite (hosts_cons_return _ _ _ Hn). simpl.
    rewrite gset_difference_take by done.
    rewrite size_union by apply gset_difference_disjoint.
    by rewrite size_singleton, IH.
Qed.

Lemma kept_all seen cands :
  Forall (λ url, ∃ domain, urlparse_netloc w url = Return domain
                           ∧ domain ∉ seen) cands →
  NoDup (urlparse_netloc w <$> cands) →
  kept w seen cands cands.
Proof.
  intros H. revert seen H.
  induction cands as [|url cands IH]; intros seen Hall Hnd; [constructor|].
  apply Forall_cons in Hall as [(domain & Hn & Hnin) Hall].
  rewrite fmap_cons in Hnd. apply NoDup_cons in Hnd as [Hfresh Hnd].
  apply (kept_take w seen url domain); [done..|].
  apply IH; [|done].
  apply Forall_forall. intros v Hv.
  rewrite Forall_forall in Hall. destruct (Hall v Hv) as (d & Hd & Hdn).
  exists d. split; [done|]. apply not_elem_of_union. split; [done|].
  intros ->%elem_of_singleton. apply Hfresh.
  apply list_elem_of_fmap. exists v. split; [congruence | done].
Qed.

End DedupeMore.

(** X7. De-duplication raises exactly the exception that [urlparse] raises
    at the first url of the results that it refuses, also when the host of
    that url would not matter; it returns when there is no such url. *)
Theorem dedupe_raises_first_refusal :
  ∀ (w : world) (results : list dict) (e : exn),
    dedupe w results = Raise e
    ↔ ∃ k url,
        candidates results !! k = Some url
        ∧ urlparse_netloc w url = Raise e
        ∧ ∀ j v, (j < k)%nat → candidates results !! j = Some v →
                 ∃ domain, urlparse_netloc w v = Return domain.
Proof. intros w results e. apply dedupe_loop_raises. Qed.

(** X8. De-duplication keeps as many urls as the results have distinct
    hosts, so no more than there are results. *)
Theorem dedupe_counts_hosts :
  ∀ (w : world) (results : list dict) (urls : list pystr),
    dedupe w results = Return urls →
    length urls = size (list_to_set (hosts w (candidates results)) : gset pystr)
    ∧ (length urls ≤ length results)%nat.
Proof.
  intros w results urls Hrun. unfold dedupe in Hrun.
  apply dedupe_loop_kept in Hrun as (new & -> & Hk). simpl. split.
  - rewrite (kept_size _ _ _ _ Hk). by rewrite difference_empty_L.
  - etrans; [apply sublist_length; by eapply kept_sublist|].
    unfold candidates. apply length_omap_le.
Qed.

Lemma dedupe_counts_hosts_witness :
  (4 ≤ length sample_results)%nat.
Proof.
  destruct (dedupe_counts_hosts sample_world sample_results
              [py "https://a.example/one"; py "https://b.example/";
               py "https://c.example/page?x=1"; py "https://d.example"])
    as [_ Hle].
  - vm_compute. reflexivity.
  - exact Hle.
Defined.

(** X9. Results that come later do not change what is kept of the earlier
    ones: the de-duplication of a first part of the results returns a prefix
    of the de-duplication of the whole. *)
Theorem dedupe_prefix_stable :
  ∀ (w : world) (results1 results2 : list dict) (urls : list pystr),
    dedupe w (results1 ++ results2) = Return urls →
    ∃ urls1, dedupe w results1 = Return urls1 ∧ urls1 `prefix_of` urls.
Proof. intros w results1 results2 urls. apply dedupe_loop_app. Qed.

Lemma dedupe_prefix_stable_witness :
  ∃ urls1,
    dedupe sample_world (take 3 sample_results) = Return urls1
    ∧ urls1 `prefix_of`
        [py "https://a.example/one"; py "https://b.example/";
         py "https://c.example/page?x=1"; py "https://d.example"].
Proof.
  apply (dedupe_prefix_stable sample_world (take 3 sample_results)
           (drop 3 sample_results)).
  vm_compute. reflexivity.
Defined.

(** X10. When the urls of the results all have a host and no two of them
    the same, de-duplication returns them all. *)
Theorem dedupe_distinct_hosts :
  ∀ (w : world) (results : list dict),
    (∀ url, url ∈ candidates results →
       ∃ domain, urlparse_netloc w url = Return domain) →
    NoDup (urlparse_netloc w <$> candidates results) →
    dedupe w results = Return (candidates results).
Proof.
  intros w results Hall Hnd. unfold dedupe.
  apply (kept_dedupe_loop w results [] ∅ (candidates results)).
  apply kept_all; [|done].
  apply Forall_forall. intros url Hin.
  destruct (Hall url Hin) as [d Hd]. exists d. split; [done|].
  apply not_elem_of_empty.
Qed.

Lemma dedupe_distinct_hosts_witness :
  dedupe sample_world (drop 3 sample_results)
  = Return [py "https://b.example/"; py "http://a.example/three";
            py "https://c.example/page?x=1"; py "https://d.example"].
Proof.
  apply (dedupe_distinct_hosts sample_world (drop 3 sample_results)).
  - intros url Hin. vm_compute in Hin.
    repeat (apply elem_of_cons in Hin as [->|Hin];
            [eexists; vm_compute; reflexivity|]).
    by apply elem_of_nil in Hin.
  - assert (Inj (=) (=) (@Return pystr)) as Hinj by (intros x y [= ->]; done).
    replace (urlparse_netloc sample_world <$> candidates (drop 3 sample_results))
      with (Return <$> [py "b.example"; py "a.example"; py "c.example";
                        py "d.example"])
      by (vm_compute; reflexivity).
    apply (NoDup_fmap_2 Return). apply (bool_decide_unpack _).
    vm_compute. exact I.
Defined.

(** ** Fan-out and formatting *)

Section FanOutMore.

Context (w : world).

Lemma gets_app evs1 evs2 : gets (evs1 ++ evs2) = gets evs1 ++ gets evs2.
Proof. apply omap_app. Qed.

Lemma gets_worker_events url : gets (worker_events w url) = requested w url.
Proof.
  unfold worker_events, requested.
  destruct (Article_init w url); [|done].
  destruct (session_get w url) as [r|]; [|done].
  destruct (bool_decide _); [done|].
  by destruct (resp_text r).
Qed.

Lemma gets_bind_worker_events urls :
  gets (urls ≫= worker_events w) = urls ≫= requested w.
Proof.
  induction urls as [|url urls IH]; [done|].
  change ((url :: urls) ≫= worker_events w)
    with (worker_events w url ++ (urls ≫= worker_events w)).
  change ((url :: urls) ≫= requested w)
    with (requested w url ++ (urls ≫= requested w)).
  by rewrite gets_app, gets_worker_events, IH.
Qed.

Lemma requested_all urls :
  (∀ url, url ∈ urls → Article_init w url = Return ()) →
  urls ≫= requested w = urls.
Proof.
  induction urls as [|url urls IH]; intros Hall; [done|].
  change ((url :: urls) ≫= requested w)
    with (requested w url ++ (urls ≫= requested w)).
  unfold requested at 1. rewrite (Hall url) by (apply elem_of_cons; by left).
  simpl. f_equal. apply IH. intros u Hu. apply Hall, elem_of_cons. by right.
Qed.

Lemma join_cons_nil sep (p : pystr) ps : join sep (p :: ps) = [] → p = [].
Proof.
  destruct ps as [|q ps]; simpl; [done|].
  intros H. by apply app_eq_nil in H as [? _].
Qed.

Lemma lines_of_cases url :
  (lines_of w url = [] ∧ ∃ d, worker_returns w url d ∧ is_Some (d !! "error"))
  ∨ (∃ title text,
       lines_of w url = block title text
       ∧ worker_returns w url (article_dict title text)).
Proof.
  pose proof (worker_value_returns w url) as Hret.
  destruct (worker_value_shape w url) as [[msg Hd] | (title & text & Hd)].
  - left. rewrite Hd in Hret. split.
    + apply (lines_of_error w url _ Hret). by exists msg.
    + eexists. split; [exact Hret | by exists msg].
  - right. exists title, text. rewrite Hd in Hret.
    split; [by apply lines_of_article | done].
Qed.

Lemma digest_lines_nil urls :
  digest_lines w urls = []
  ↔ ∀ url, url ∈ urls → ∃ d, worker_returns w url d ∧ is_Some (d !! "error").
Proof.
  induction urls as [|url urls IH].
  - split; [|done]. intros _ url Hin. by apply elem_of_nil in Hin.
  - rewrite digest_lines_cons. split.
    + intros H. apply app_eq_nil in H as [Hl Hr].
      intros u Hu. apply elem_of_cons in Hu as [->|Hu].
      * destruct (lines_of_cases url) as [[_ ?] | (title & text & Hb & _)]; [done|].
        rewrite Hb in Hl. discriminate Hl.
      * by apply IH.
    + intros Hall.
      destruct (Hall url) as (d & Hd & Herr); [apply elem_of_cons; by left|].
      rewrite (lines_of_error w url d Hd Herr). simpl.
      apply IH. intros u Hu. apply Hall, elem_of_cons. by right.
Qed.

Lemma digest_lines_head urls :
  digest_lines w urls = []
  ∨ ∃ title rest, digest_lines w urls = (py "Title: " ++ title) :: rest.
Proof.
  induction urls as [|url urls IH]; [by left|].
  rewrite digest_lines_cons.
  destruct (lines_of_cases url) as [[-> _] | (title & text & -> & _)].
  - exact IH.
  - right. by eexists _, _.
Qed.

Lemma digest_lines_outcomes urls outcomes :
  Forall2 (outcome_of w) urls outcomes →
  digest_lines w urls = omap id outcomes ≫= (λ x, block x.1 x.2).
Proof.
  induction 1 as [|url o urls outcomes Ho _ IH]; [done|].
  rewrite digest_lines_cons, IH. destruct o as [[title text]|]; simpl in Ho.
  - by rewrite (lines_of_article w url title text Ho).
  - destruct Ho as (d & Hd & Herr). by rewrite (lines_of_error w url d Hd Herr).
Qed.

Lemma format_loop_formattable articles acc :
  Forall formattable articles →
  format_loop articles acc = Return (acc ++ (articles ≫= lines_for)).
Proof.
  intros H. revert acc. induction H as [|g articles Hg _ IH]; intros acc.
  - simpl. by rewrite app_nil_r.
  - change ((g :: articles) ≫= lines_for)
      with (lines_for g ++ (articles ≫= lines_for)).
    destruct g as [a|e]; simpl; [|apply IH].
    destruct (a !! "error") as [msg|] eqn:Herr; [apply IH|].
    destruct Hg as [[? ?] | [[title Ht] [text Hx]]]; [congruence|].
    unfold getitem. rewrite Ht, Hx. rewrite IH. by rewrite <- app_assoc.
Qed.

Lemma format_loop_raises articles acc e :
  format_loop articles acc = Raise e →
  ¬ Forall formattable articles ∧ (e = KeyError "title" ∨ e = KeyError "text").
Proof.
  revert acc. induction articles as [|g articles IH]; intros acc; [done|].
  assert (∀ acc', format_loop articles acc' = Raise e →
            ¬ Forall formattable (g :: articles)
            ∧ (e = KeyError "title" ∨ e = KeyError "text")) as Hrest.
  { intros acc' H. destruct (IH _ H) as [Hnf He]. split; [|done].
    intros Hf. apply Forall_cons in Hf as [_ Hf]. done. }
  destruct g as [a|e']; simpl; [|apply Hrest].
  destruct (a !! "error") as [msg|] eqn:Herr; [apply Hrest|].
  unfold getitem.
  destruct (a !! "title") as [title|] eqn:Ht.
  - destruct (a !! "text") as [text|] eqn:Hx; [apply Hrest|].
    intros [= <-]. split; [|by right].
    intros Hf. apply Forall_cons in Hf as [[[? ?] | [_ [? ?]]] _]; congruence.
  - intros [= <-]. split; [|by left].
    intros Hf. apply Forall_cons in Hf as [[[? ?] | [[? ?] _]] _]; congruence.
Qed.

End FanOutMore.

(** X11. The fan-out requests each url of its list exactly once and nothing
    else: the urls requested are, as a multiset, the urls of the list whose
    article object could be built (all of them when none fails there); the
    counters of provider calls and random draws are left alone. *)
Theorem gather_requests_each_url_once :
  ∀ (w : world) (urls : list pystr) (s : state),
    calls (gather w urls s).2 = calls s
    ∧ draws (gather w urls s).2 = draws s
    ∧ ∃ evs,
        log (gather w urls s).2 = log s ++ evs
        ∧ gets evs ≡ₚ urls ≫= requested w
        ∧ ((∀ url, url ∈ urls → Article_init w url = Return ()) →
           gets evs ≡ₚ urls).
Proof.
  intros w urls s. rewrite gather_state. unfold logged. simpl.
  split; [done|]. split; [done|]. eexists. split; [done|].
  assert (gets ((completion_order w urls).*2 ≫= worker_events w)
          ≡ₚ urls ≫= requested w) as Hperm.
  { rewrite gets_bind_worker_events. by rewrite completion_order_urls. }
  split; [done|].
  intros Hall. by rewrite Hperm, requested_all.
Qed.

Lemma gather_requests_each_url_once_witness :
  ∃ evs,
    log (gather sample_world [py "https://a.example/one"; py "https://b.example/"]
                initial_state).2 = evs
    ∧ gets evs ≡ₚ [py "https://a.example/one"; py "https://b.example/"].
Proof.
  destruct (gather_requests_each_url_once sample_world
              [py "https://a.example/one"; py "https://b.example/"] initial_state)
    as (_ & _ & evs & Hlog & _ & Hall).
  exists evs. split; [exact Hlog|]. apply Hall. intros url Hin. reflexivity.
Defined.

(** X12. The digest is the empty string exactly when the worker of every
    url returns an error (in particular for an empty list of urls). *)
Theorem digest_empty_iff_all_fail :
  ∀ (w : world) (urls : list pystr) (s : state),
    (fetch_and_format w urls s).1 = Return []
    ↔ ∀ url, url ∈ urls → ∃ d, worker_returns w url d ∧ is_Some (d !! "error").
Proof.
  intros w urls s. rewrite fetch_and_format_result, <- digest_lines_nil.
  split.
  - intros [= H].
    destruct (digest_lines_head w urls) as [Hnil | (title & rest & Hl)]; [done|].
    rewrite Hl in H. apply join_cons_nil in H. discriminate H.
  - by intros ->.
Qed.

(** X13. The digest is made of the blocks "Title: ...", "Text: ...", "-----"
    of the urls whose worker returns a title and a text, in the order of the
    urls and joined by newlines; the urls whose worker returns an error
    add nothing. *)
Theorem digest_of_outcomes :
  ∀ (w : world) (urls : list pystr) (outcomes : list (option (pystr * pystr)))
    (s : state),
    Forall2 (outcome_of w) urls outcomes →
    (fetch_and_format w urls s).1
    = Return (join newline
                (omap id outcomes ≫=
                   (λ x, [py "Title: " ++ x.1; py "Text: " ++ x.2; py "-----"]))).
Proof.
  intros w urls outcomes s H.
  rewrite fetch_and_format_result. by rewrite (digest_lines_outcomes w _ _ H).
Qed.

Lemma digest_of_outcomes_witness :
  (fetch_and_format sample_world
     [py "https://a.example/one"; py "https://b.example/"; py "https://d.example"]
     initial_state).1
  = Return (join newline
      [py "Title: Caf  1"; py "Text: <html>A</html>"; py "-----";
       py "Title: Caf  1"; py "Text: <html>D</html>"; py "-----"]).
Proof.
  apply (digest_of_outcomes sample_world _
           [Some (py "Caf  1", py "<html>A</html>"); None;
            Some (py "Caf  1", py "<html>D</html>")]).
  constructor; [|constructor; [|constructor; [|constructor]]].
  - intros s. vm_compute. reflexivity.
  - exists (error_dict (py "https://b.example/") (py "HTTP 500")).
    split; [intros s; vm_compute; reflexivity | by eexists].
  - intros s. vm_compute. reflexivity.
Defined.

(** X14. The formatting loop adds nothing for an exception in the gathered
    list or for a dictionary with an error, and the three lines
    "Title: <title>", "Text: <text>" and "-----" for any other dictionary,
    in the order of the list; it returns whenever every dictionary without
    error has a title and a text, and raises only on a dictionary that
    lacks one of them, and then [KeyError] for "title" or for "text". *)
Theorem format_loop_key_errors :
  ∀ (articles : list gathered) (formatted_results : list pystr),
    (Forall formattable articles →
       format_loop articles formatted_results
       = Return
           (formatted_results
            ++ (articles ≫=
                  (λ g, match g with
                        | GExc _ => []
                        | GDict a =>
                            match a !! "error", a !! "title", a !! "text" with
                            | None, Some title, Some text =>
                                [py "Title: " ++ title; py "Text: " ++ text;
                                 py "-----"]
                            | _, _, _ => []
                            end
                        end))))
    ∧ (∀ e, format_loop articles formatted_results = Raise e →
            ¬ Forall formattable articles
            ∧ (e = KeyError "title" ∨ e = KeyError "text")).
Proof.
  intros articles acc. split.
  - apply format_loop_formattable.
  - intros e. apply format_loop_raises.
Qed.

Lemma format_loop_key_errors_witness :
  format_loop [GExc (Exn OtherException (py "boom"));
               GDict {[ "url" := py "u"; "error" := py "HTTP 404" ]};
               GDict {[ "title" := py "T"; "text" := py "x" ]}] []
  = Return [py "Title: T"; py "Text: x"; py "-----"]
  ∧ ¬ Forall formattable [GDict {[ "title" := py "T" ]}].
Proof.
  split.
  - destruct (format_loop_key_errors
                [GExc (Exn OtherException (py "boom"));
                 GDict {[ "url" := py "u"; "error" := py "HTTP 404" ]};
                 GDict {[ "title" := py "T"; "text" := py "x" ]}] []) as [Hret _].
    apply Hret.
    constructor; [exact I|]. constructor; [left; by eexists|].
    constructor; [right; split; by eexists | constructor].
  - destruct (format_loop_key_errors [GDict {[ "title" := py "T" ]}] [])
      as [_ Hraise].
    apply (Hraise (KeyError "text")). vm_compute. reflexivity.
Defined.

(** ** Retrying, for every behaviour of the environment *)

Section RetryMore.

Context (w : world) (keyword : pystr) (max_retries : Z) (initial_delay : Z).

(** The attempt, case by case. *)
Lemma attempt_body_run s :
  attempt_body w keyword s =
    match ddgs_atext w (calls s) keyword 15 with
    | Raise e => (Raise e, searched keyword s)
    | Return results =>
        if bool_decide (results = []) then (Return [], searched keyword s)
        else match dedupe w results with
             | Raise e => (Raise e, searched keyword s)
             | Return urls => fetch_and_format w urls (searched keyword s)
             end
    end.
Proof.
  unfold attempt_body, mbind, M_bind, atext, searched.
  destruct (ddgs_atext w (calls s) keyword 15) as [results|e]; [|done].
  destruct (bool_decide (results = [])); [done|].
  unfold lift. by destruct (dedupe w results).
Qed.

Lemma sleeps_app evs1 evs2 : sleeps (evs1 ++ evs2) = sleeps evs1 ++ sleeps evs2.
Proof. apply omap_app. Qed.

Lemma sleeps_worker_events urls : sleeps (urls ≫= worker_events w) = [].
Proof.
  induction urls as [|url urls IH]; [done|].
  change ((url :: urls) ≫= worker_events w)
    with (worker_events w url ++ (urls ≫= worker_events w)).
  rewrite sleeps_app, IH, app_nil_r. unfold worker_events.
  destruct (Article_init w url); [|done].
  destruct (session_get w url) as [r|]; [|done].
  destruct (bool_decide _); [done|].
  by destruct (resp_text r).
Qed.

(** One attempt is one call of the provider, no draw and no wait. *)
Lemma attempt_body_footprint s :
  calls (attempt_body w keyword s).2 = S (calls s)
  ∧ draws (attempt_body w keyword s).2 = draws s
  ∧ sleeps (log (attempt_body w keyword s).2) = sleeps (log s).
Proof.
  rewrite attempt_body_run.
  assert (sleeps (log (searched keyword s)) = sleeps (log s)) as Hs.
  { unfold searched. simpl. by rewrite sleeps_app, app_nil_r. }
  destruct (ddgs_atext w (calls s) keyword 15) as [results|e]; [|done].
  destruct (bool_decide (results = [])); [done|].
  destruct (dedupe w results) as [urls|e]; [|done].
  rewrite fetch_and_format_state. unfold logged. simpl.
  by rewrite !sleeps_app, sleeps_worker_events, !app_nil_r.
Qed.

Lemma retry_loop_step_return attempt rest s s1 digest :
  attempt_body w keyword s = (Return digest, s1) →
  retry_loop w keyword max_retries initial_delay (attempt :: rest) s
  = (Return (Some digest), s1).
Proof.
  intros Hbody. simpl.
  unfold mbind at 1, M_bind, try_except, fmap, M_fmap. by rewrite Hbody.
Qed.

Lemma retry_loop_step_exhausted attempt rest s s1 e :
  attempt_body w keyword s = (Raise e, s1) →
  is_provider_error e = true →
  Z.of_nat attempt = (max_retries - 1)%Z →
  retry_loop w keyword max_retries initial_delay (attempt :: rest) s
  = (Raise e, s1).
Proof.
  intros Hbody Hprov Hlast. simpl.
  unfold mbind at 1, M_bind, try_except, fmap, M_fmap.
  rewrite Hbody, Hprov. by rewrite bool_decide_eq_true_2.
Qed.

Lemma retry_loop_step_backoff attempt rest s s1 e :
  attempt_body w keyword s = (Raise e, s1) →
  is_provider_error e = true →
  Z.of_nat attempt ≠ (max_retries - 1)%Z →
  fits initial_delay attempt →
  retry_loop w keyword max_retries initial_delay (attempt :: rest) s
  = retry_loop w keyword max_retries initial_delay rest
      (State (calls s1) (S (draws s1))
         (log s1 ++ [EvSleep (backoff_wait initial_delay attempt
                                (random_uniform w (draws s1)))])).
Proof.
  intros Hbody Hprov Hlast Hfits. simpl.
  unfold mbind at 1, M_bind, try_except, fmap, M_fmap.
  rewrite Hbody, Hprov. rewrite bool_decide_eq_false_2 by done.
  unfold mbind, M_bind, uniform01, lift.
  by rewrite (backoff_delay_fits _ _ _ Hfits).
Qed.

(** The product is out of range: the draw is made, then the sum raises. *)
Lemma retry_loop_step_overflow attempt rest s s1 e :
  attempt_body w keyword s = (Raise e, s1) →
  is_provider_error e = true →
  Z.of_nat attempt ≠ (max_retries - 1)%Z →
  ¬ fits initial_delay attempt →
  retry_loop w keyword max_retries initial_delay (attempt :: rest) s
  = (Raise OverflowError, State (calls s1) (S (draws s1)) (log s1)).
Proof.
  intros Hbody Hprov Hlast Hfits. simpl.
  unfold mbind at 1, M_bind, try_except, fmap, M_fmap.
  rewrite Hbody, Hprov. rewrite bool_decide_eq_false_2 by done.
  unfold mbind, M_bind, uniform01, lift.
  by rewrite (backoff_delay_overflows _ _ _ Hfits).
Qed.

Lemma fits_dec attempt : fits initial_delay attempt ∨ ¬ fits initial_delay attempt.
Proof. unfold fits. destruct (is_infinity _); [by right | by left]. Qed.

(** A digest that the loop returns is the digest of one of its attempts. *)
Lemma retry_loop_digest attempts s s' digest :
  retry_loop w keyword max_retries initial_delay attempts s
  = (Return (Some digest), s') →
  ∃ s0, (attempt_body w keyword s0).1 = Return digest.
Proof.
  revert s. induction attempts as [|attempt rest IH]; intros s; [done|].
  destruct (attempt_body w keyword s) as [[digest0|e] s1] eqn:Hbody.
  - rewrite (retry_loop_step_return _ _ _ _ _ Hbody).
    intros [= <- <-]. exists s. by rewrite Hbody.
  - destruct (is_provider_error e) eqn:Hprov.
    + destruct (decide (Z.of_nat attempt = (max_retries - 1)%Z)) as [Hl|Hl].
      * by rewrite (retry_loop_step_exhausted _ _ _ _ _ Hbody Hprov Hl).
      * destruct (fits_dec attempt) as [Hf|Hf].
        -- rewrite (retry_loop_step_backoff _ _ _ _ _ Hbody Hprov Hl Hf). apply IH.
        -- by rewrite (retry_loop_step_overflow _ _ _ _ _ Hbody Hprov Hl Hf).
    + by rewrite (retry_loop_other_exception _ _ _ _ _ _ _ _ _ Hbody Hprov).
Qed.

(** The calls and the waits of the loop over the last [m] attempts. *)
Lemma retry_loop_trace m :
  ∀ a s,
    (a + m)%nat = Z.to_nat max_retries → (1 ≤ m)%nat →
    ∃ c,
      (1 ≤ c ≤ m)%nat
      ∧ calls (retry_loop w keyword max_retries initial_delay (seq a m) s).2
        = (calls s + c)%nat
      ∧ sleeps (log (retry_loop w keyword max_retries initial_delay (seq a m) s).2)
        = sleeps (log s)
          ++ ((λ k, backoff_wait initial_delay (a + k)
                      (random_uniform w (draws s + k))) <$> seq 0 (c - 1))
      ∧ (retry_loop w keyword max_retries initial_delay (seq a m) s).1
        ≠ Return None.
Proof.
  induction m as [|m IH]; intros a s Ham Hm; [lia|].
  destruct (attempt_body_footprint s) as (Hcalls & Hdraws & Hsleeps).
  simpl seq.
  destruct (attempt_body w keyword s) as [[digest0|e] s1] eqn:Hbody;
    simpl in Hcalls, Hdraws, Hsleeps.
  { rewrite (retry_loop_step_return _ _ _ _ _ Hbody). exists 1%nat. simpl.
    rewrite Hcalls, Hsleeps, app_nil_r.
    repeat split; [lia.. | done]. }
  destruct (is_provider_error e) eqn:Hprov.
  2:{ rewrite (retry_loop_other_exception _ _ _ _ _ _ _ _ _ Hbody Hprov).
      exists 1%nat. simpl. rewrite Hcalls, Hsleeps, app_nil_r.
      repeat split; [lia.. | done]. }
  destruct (decide (Z.of_nat a = (max_retries - 1)%Z)) as [Hl|Hl].
  { rewrite (retry_loop_step_exhausted _ _ _ _ _ Hbody Hprov Hl).
    exists 1%nat. simpl. rewrite Hcalls, Hsleeps, app_nil_r.
    repeat split; [lia.. | done]. }
  destruct (fits_dec a) as [Hf|Hf].
  2:{ rewrite (retry_loop_step_overflow _ _ _ _ _ Hbody Hprov Hl Hf).
      exists 1%nat. simpl. rewrite Hcalls, Hsleeps, app_nil_r.
      repeat split; [lia.. | done]. }
  rewrite (retry_loop_step_backoff _ _ _ _ _ Hbody Hprov Hl Hf).
  destruct (IH (S a)
              (State (calls s1) (S (draws s1))
                 (log s1 ++ [EvSleep (backoff_wait initial_delay a
                                        (random_uniform w (draws s1)))])))
    as (c & Hc & Hcalls' & Hsleeps' & Hnone); [lia | lia |].
  exists (S c). simpl in Hcalls', Hsleeps'.
  rewrite Hcalls', Hsleeps'.
  split; [lia|]. split; [lia|]. split; [|done].
  rewrite sleeps_app, Hsleeps, Hdraws. simpl. rewrite <- app_assoc. f_equal.
  replace (c - 0)%nat with (S (c - 1)) by lia. simpl.
  rewrite !Nat.add_0_r. f_equal.
  rewrite <- fmap_S_seq, <- list_fmap_compose.
  apply list_fmap_ext. intros i k _. simpl.
  f_equal; [f_equal; lia | f_equal; lia].
Qed.

End RetryMore.

Lemma sleeps_backoff_events w keyword initial_delay m :
  ∀ a draw,
    sleeps (backoff_events w keyword initial_delay a m draw)
    = (λ k, backoff_wait initial_delay (a + k) (random_uniform w (draw + k)))
        <$> seq 0 m.
Proof.
  induction m as [|m IH]; intros a draw; [done|].
  simpl. rewrite !Nat.add_0_r. f_equal. rewrite IH.
  rewrite <- fmap_S_seq, <- list_fmap_compose.
  apply list_fmap_ext. intros i k _. simpl.
  f_equal; [f_equal; lia | f_equal; lia].
Qed.

(** X15. Whatever the provider, the web servers and the extraction do, a
    call of [get_material] with [max_retries >= 1] calls the provider at
    least once and at most [max_retries] times, and waits exactly once
    between two calls: after the k-th call (from 0) for the binary64 sum of
    [initial_delay * 2^k], converted to binary64, and the k-th draw. *)
Theorem get_material_calls_and_waits :
  ∀ (w : world) (keyword : pystr) (max_retries initial_delay : Z) (s : state),
    (1 ≤ max_retries)%Z →
    ∃ c,
      (1 ≤ c)%nat ∧ (Z.of_nat c ≤ max_retries)%Z
      ∧ calls (get_material w keyword max_retries initial_delay s).2
        = (calls s + c)%nat
      ∧ sleeps (log (get_material w keyword max_retries initial_delay s).2)
        = sleeps (log s)
          ++ ((λ k, (float_of_Z (initial_delay * 2 ^ Z.of_nat k)
                     + random_uniform w (draws s + k))%float) <$> seq 0 (c - 1)).
Proof.
  intros w keyword max_retries initial_delay s Hn. unfold get_material.
  destruct (retry_loop_trace w keyword max_retries initial_delay
              (Z.to_nat max_retries) 0 s)
    as (c & Hc & Hcalls & Hsleeps & _); [lia | lia |].
  exists c. split; [lia|]. split; [lia|]. done.
Qed.

Lemma get_material_calls_and_waits_witness :
  ∃ c, (1 ≤ c)%nat ∧ (Z.of_nat c ≤ 5)%Z
       ∧ calls (get_material broken_world (py "rust") 5 1 initial_state).2
         = (0 + c)%nat.
Proof.
  destruct (get_material_calls_and_waits broken_world (py "rust") 5 1 initial_state)
    as (c & Hc & Hc' & Hcalls & _).
  - lia.
  - exists c. split; [exact Hc|]. split; [exact Hc' | exact Hcalls].
Defined.

(** X16. [get_material] returns [None] exactly when it is called with
    [max_retries <= 0], for which the loop has no attempt, and then it does
    so without any effect. *)
Theorem get_material_none_iff :
  ∀ (w : world) (keyword : pystr) (max_retries initial_delay : Z) (s : state),
    ((get_material w keyword max_retries initial_delay s).1 = Return None
     ↔ (max_retries ≤ 0)%Z)
    ∧ ((max_retries ≤ 0)%Z →
       get_material w keyword max_retries initial_delay s = (Return None, s)).
Proof.
  intros w keyword max_retries initial_delay s.
  assert ((max_retries ≤ 0)%Z →
          get_material w keyword max_retries initial_delay s = (Return None, s))
    as Hzero.
  { intros H. unfold get_material.
    by replace (Z.to_nat max_retries) with 0%nat by lia. }
  split; [|done]. split.
  - intros H. destruct (decide (max_retries ≤ 0)%Z) as [|Hpos]; [done|]. exfalso.
    unfold get_material in H.
    destruct (retry_loop_trace w keyword max_retries initial_delay
                (Z.to_nat max_retries) 0 s)
      as (c & _ & _ & _ & Hnone); [lia | lia |]. done.
  - intros H. by rewrite Hzero.
Qed.

Lemma get_material_none_iff_witness :
  get_material sample_world (py "rust") (-3) 1 initial_state
  = (Return None, initial_state).
Proof.
  destruct (get_material_none_iff sample_world (py "rust") (-3) 1 initial_state)
    as [_ H].
  apply H. lia.
Defined.

(** X17. For every [max_retries = n + 1] and [initial_delay] whose products
    [initial_delay * 2^k], k < n, are in the range of binary64: when the
    first [n + 1] calls of the provider raise provider errors,
    [get_material] raises the last of them after [n + 1] calls and [n]
    waits, the k-th being the binary64 sum of [initial_delay * 2^k] and the
    k-th draw. *)
Theorem get_material_exhausts_retries :
  ∀ (w : world) (keyword : pystr) (n : nat) (initial_delay : Z) (s : state),
    provider_fails w keyword s (S n) →
    (∀ k, (k < n)%nat →
       is_infinity (float_of_Z (initial_delay * 2 ^ Z.of_nat k)) = false) →
    ∃ e evs,
      ddgs_atext w (calls s + n) keyword 15 = Raise e
      ∧ get_material w keyword (Z.of_nat (S n)) initial_delay s
        = (Raise e,
           State (calls s + S n) (draws s + n)
             (log s ++ evs ++ [EvSearch keyword 15]))
      ∧ sleeps evs
        = (λ k, (float_of_Z (initial_delay * 2 ^ Z.of_nat k)
                 + random_uniform w (draws s + k))%float) <$> seq 0 n
      ∧ ∀ url, EvGet url ∉ evs.
Proof.
  intros w keyword n initial_delay s Hfail Hfits.
  destruct (Hfail n) as (e & He & Hp); [lia|].
  exists e, (backoff_events w keyword initial_delay 0 n (draws s)).
  split; [done|]. split; [|split].
  - rewrite (get_material_failures w keyword (Z.of_nat (S n)) initial_delay n s);
      [|lia|exact Hfits|intros k Hk; apply Hfail; lia].
    rewrite (retry_loop_exhausted _ _ _ _ _ _ _ e); [|done|done|lia].
    unfold searched, after_failures. simpl.
    f_equal. f_equal; [lia|]. by rewrite <- app_assoc.
  - apply sleeps_backoff_events.
  - intros url. apply backoff_events_no_get.
Qed.

Lemma get_material_exhausts_retries_witness :
  ∃ e evs,
    get_material ratelimited_world (py "rust") 2 3 initial_state
    = (Raise e, State 2 1 ([] ++ evs ++ [EvSearch (py "rust") 15]))
    ∧ sleeps evs = [3.5%float].
Proof.
  destruct (get_material_exhausts_retries ratelimited_world (py "rust") 1 3
              initial_state) as (e & evs & _ & Hrun & Hsleeps & _).
  - intros k Hk. eexists. split; reflexivity.
  - intros k Hk. destruct k as [|k]; [reflexivity | lia].
  - exists e, evs. split; [exact Hrun | exact Hsleeps].
Defined.

(** X24. When the calls of the provider raise provider errors and the
    product [initial_delay * 2^a] of an attempt [a] that is not the last is
    out of the range of binary64, while the products before it are in
    range, [get_material] raises [OverflowError] after [a + 1] calls of the
    provider, [a] waits and [a + 1] draws. *)
Theorem get_material_overflow :
  ∀ (w : world) (keyword : pystr) (max_retries initial_delay : Z)
    (a : nat) (s : state),
    (Z.of_nat a < max_retries - 1)%Z →
    provider_fails w keyword s (S a) →
    (∀ k, (k < a)%nat →
       is_infinity (float_of_Z (initial_delay * 2 ^ Z.of_nat k)) = false) →
    is_infinity (float_of_Z (initial_delay * 2 ^ Z.of_nat a)) = true →
    ∃ evs,
      get_material w keyword max_retries initial_delay s
      = (Raise (Exn OtherException (py "int too large to convert to float")),
         State (calls s + S a) (draws s + S a)
           (log s ++ evs ++ [EvSearch keyword 15]))
      ∧ length (sleeps evs) = a.
Proof.
  intros w keyword max_retries initial_delay a s Ha Hfail Hfits Hover.
  destruct (Hfail a) as (e & He & Hp); [lia|].
  exists (backoff_events w keyword initial_delay 0 a (draws s)). split.
  - rewrite (get_material_failures w keyword max_retries initial_delay a s);
      [|lia|exact Hfits|intros k Hk; apply Hfail; lia].
    rewrite (retry_loop_step_overflow _ _ _ _ _ _ _ _ e
               (attempt_body_raises w keyword
                  (after_failures w keyword initial_delay 0 a s) e He) Hp);
      [|lia|unfold fits; congruence].
    unfold searched, after_failures, OverflowError. simpl.
    f_equal. f_equal; [lia | lia | by rewrite <- app_assoc].
  - by rewrite sleeps_backoff_events, length_fmap, length_seq.
Qed.

Lemma get_material_overflow_witness :
  ∃ evs,
    get_material ratelimited_world (py "rust") 5 (2 ^ 1023) initial_state
    = (Raise (Exn OtherException (py "int too large to convert to float")),
       State 2 2 ([] ++ evs ++ [EvSearch (py "rust") 15]))
    ∧ length (sleeps evs) = 1%nat.
Proof.
  apply (get_material_overflow ratelimited_world (py "rust") 5 (2 ^ 1023) 1
           initial_state).
  - lia.
  - intros k Hk. eexists. split; reflexivity.
  - intros k Hk. destruct k as [|k]; [vm_compute; reflexivity | lia].
  - vm_compute. reflexivity.
Defined.

(** ** The pipeline as a whole *)

Section Pipeline.

Context (w : world) (keyword : pystr).


Lemma attempt_body_dedupe_raises s results e :
  ddgs_atext w (calls s) keyword 15 = Return results →
  dedupe w results = Raise e →
  attempt_body w keyword s = (Raise e, searched keyword s).
Proof.
  intros Hres Hdd. rewrite attempt_body_run, Hres.
  destruct results as [|r results]; [done|].
  rewrite bool_decide_eq_false_2 by done. by rewrite Hdd.
Qed.

Lemma Forall_join (P : pychar → Prop) sep parts :
  Forall P sep → Forall (Forall P) parts → Forall P (join sep parts).
Proof.
  intros Hsep. induction 1 as [|p ps Hp Hps IH]; [constructor|].
  destruct ps as [|q ps]; [done|].
  change (join sep (p :: q :: ps)) with (p ++ sep ++ join sep (q :: ps)).
  apply Forall_app. split; [done|]. apply Forall_app. by split.
Qed.

Lemma literal_Title_ascii : Forall is_ascii (py "Title: ").
Proof. vm_compute. repeat (constructor; [reflexivity|]). constructor. Qed.

Lemma literal_Text_ascii : Forall is_ascii (py "Text: ").
Proof. vm_compute. repeat (constructor; [reflexivity|]). constructor. Qed.

Lemma literal_dashes_ascii : Forall is_ascii (replicate 5 45).
Proof. vm_compute. repeat (constructor; [reflexivity|]). constructor. Qed.

Lemma lines_of_ascii url : Forall (Forall is_ascii) (lines_of w url).
Proof.
  destruct (lines_of_cases w url) as [[-> _] | (title & text & -> & Hret)];
    [constructor|].
  specialize (Hret initial_state).
  destruct (fetch_and_parse_article w url initial_state) as [o s'] eqn:Hrun.
  simpl in Hret. subst o.
  destruct (worker_result_shape w url _ _ _ Hrun)
    as [[msg Heq] | (html & a & _ & Heq)].
  { apply (f_equal (λ d : dict, d !! "error")) in Heq.
    rewrite article_dict_no_error, error_dict_has_error in Heq. done. }
  assert (title = clean_text (Some (art_title a))) as ->.
  { apply (f_equal (λ d : dict, d !! "title")) in Heq.
    rewrite !article_dict_title in Heq. by apply (inj Some) in Heq. }
  assert (text = clean_text (Some (take (N.to_nat 10000) (art_text a)))) as ->.
  { apply (f_equal (λ d : dict, d !! "text")) in Heq.
    rewrite !article_dict_text in Heq. by apply (inj Some) in Heq. }
  unfold block. constructor; [|constructor; [|constructor; [|constructor]]].
  - apply Forall_app. split; [apply literal_Title_ascii | apply clean_text_is_ascii].
  - apply Forall_app. split; [apply literal_Text_ascii | apply clean_text_is_ascii].
  - apply literal_dashes_ascii.
Qed.

Lemma digest_lines_ascii urls : Forall (Forall is_ascii) (digest_lines w urls).
Proof.
  induction urls as [|url urls IH]; [constructor|].
  rewrite digest_lines_cons. apply Forall_app. split; [apply lines_of_ascii | done].
Qed.

Lemma attempt_body_ascii s digest :
  (attempt_body w keyword s).1 = Return digest → Forall is_ascii digest.
Proof.
  rewrite attempt_body_run.
  destruct (ddgs_atext w (calls s) keyword 15) as [results|e]; [|done].
  destruct (bool_decide (results = [])).
  { intros [= <-]. constructor. }
  destruct (dedupe w results) as [urls|e]; [|done].
  rewrite fetch_and_format_result. intros [= <-].
  apply Forall_join; [|apply digest_lines_ascii].
  unfold newline. constructor; [reflexivity | constructor].
Qed.

End Pipeline.



(** X21. When [urlparse] refuses a url of the results with an exception
    that is not a provider error, the endpoint answers 500 with the message
    of that exception, and no article is requested: the last event is the
    call of the provider. *)
Theorem search_aborts_on_refused_url :
  ∀ (w : world) (keyword : pystr) (s : state) (k : nat)
    (results : list dict) (e : exn),
    (k < 5)%nat →
    provider_fails w keyword s k →
    ddgs_atext w (calls s + k) keyword 15 = Return results →
    dedupe w results = Raise e →
    is_provider_error e = false →
    search w keyword s
    = (HttpResponse 500 {[ "detail" := JStr (str_of_exn e) ]},
       State (calls s + k + 1) (draws s + k)
         (log s ++ backoff_events w keyword 1 0 k (draws s)
                ++ [EvSearch keyword 15])).
Proof.
  intros w keyword s k results e Hk Hfail Hres Hdd Hprov. unfold search.
  rewrite (get_material_failures_default w keyword k s Hk Hfail).
  pose proof (attempt_body_dedupe_raises w keyword
                (after_failures w keyword 1 0 k s) results e Hres Hdd) as Hbody.
  rewrite (retry_loop_other_exception _ _ _ _ _ _ _ _ _ Hbody Hprov).
  unfold searched, after_failures. simpl.
  f_equal. f_equal; [lia|]. by rewrite <- app_assoc.
Qed.

Lemma search_aborts_on_refused_url_witness :
  search bad_url_world (py "rust") initial_state
  = (HttpResponse 500 {[ "detail" := JStr (py "Invalid IPv6 URL") ]},
     State 1 0 [EvSearch (py "rust") 15]).
Proof.
  apply (search_aborts_on_refused_url bad_url_world (py "rust") initial_state 0
           [ {[ "href" := py "http://[::1/index" ]} ]
           (Exn OtherException (py "Invalid IPv6 URL"))).
  - lia.
  - intros k Hk. lia.
  - reflexivity.
  - vm_compute. reflexivity.
  - reflexivity.
Defined.

(** X22. The endpoint answers 200 with the digest that [get_material]
    returns, as a string and never as null, or 500 with the message of the
    exception that [get_material] raises. *)
Theorem search_response :
  ∀ (w : world) (keyword : pystr) (s : state),
    (∃ digest,
       (get_material w keyword 5 1 s).1 = Return (Some digest)
       ∧ (search w keyword s).1
         = HttpResponse 200 {[ "results" := JStr digest ]})
    ∨ (∃ e,
         (get_material w keyword 5 1 s).1 = Raise e
         ∧ (search w keyword s).1
           = HttpResponse 500 {[ "detail" := JStr (str_of_exn e) ]}).
Proof.
  intros w keyword s. unfold search, get_material.
  destruct (retry_loop_trace w keyword 5 1 5 0 s)
    as (c & _ & _ & _ & Hnone); [reflexivity | lia |].
  change (Z.to_nat 5) with 5%nat.
  destruct (retry_loop w keyword 5 1 (seq 0 5) s) as [[[digest|]|e] s'];
    simpl in Hnone.
  - left. by exists digest.
  - done.
  - right. by exists e.
Qed.

(** X23. Every digest that [get_material] returns is pure ASCII. *)
Theorem get_material_digest_ascii :
  ∀ (w : world) (keyword : pystr) (max_retries : Z) (initial_delay : Z)
    (s s' : state) (digest : pystr),
    get_material w keyword max_retries initial_delay s
    = (Return (Some digest), s') →
    Forall (λ c, ord c < 128) digest.
Proof.
  intros w keyword max_retries initial_delay s s' digest Hrun.
  apply retry_loop_digest in Hrun as [s0 Hbody].
  by eapply attempt_body_ascii.
Qed.

Lemma get_material_digest_ascii_witness :
  Forall (λ c, ord c < 128)
    (join newline
      [py "Title: Caf  1"; py "Text: <html>A</html>"; py "-----";
       py "Title: Caf  1"; py "Text: <html>D</html>"; py "-----"]).
Proof.
  eapply (get_material_digest_ascii sample_world (py "rust") 5 1 initial_state).
  vm_compute. reflexivity.
Defined.
